(** * qr-image-gen: the QR endpoint of [src/server.js]

    The development has three parts.

    - [Geometry]: the logo scaling and centring arithmetic of
      [generateQRCodeWithLogo] (server.js, lines 42-59) over exact rationals
      [Q]; [Math.round] is the floor of the argument plus one half.  The
      rounding of the machine is left out of this part.
    - [Rounded] and [Doubles]: the same lines in binary64, the arithmetic
      of JavaScript numbers.  [Rounded] rounds every operation to the
      nearest double over [Q], and carries the statements for all sizes;
      [Doubles] runs the code on the primitive floats, and carries the
      computed instances.
    - [Server]: the two generation functions and the [/generate-qr] handler
      as a state-and-exception monad over a world made of the file system,
      the clock, the console, the response object and a trace of the calls
      made to the external libraries ([qrcode], [canvas], [fs]). *)

From Stdlib Require Import QArith Qround Qpower Qabs Lqa.
From Stdlib Require PrimFloat SpecFloat FloatOps.
From stdpp Require Import gmap strings list pretty.

Local Open Scope Q_scope.

(** ** Logo geometry *)

Module Geometry.

(** Numbers.  The code computes with IEEE doubles.  The canvas width and the
    natural sizes of an image are integers, which doubles hold exactly; the
    quotients [width / 5], [logoHeight / logoWidth] and
    [logoWidth / logoHeight] are rounded by the machine and exact here;
    [Rounded] and [Doubles] below round them.
    Division by zero, total on [Q], is not reached when the width is
    positive (see [logo_scale_cases] below). *)

(** [a > b] on JavaScript numbers. *)
Definition Qgtb (a b : Q) : bool :=
  match a ?= b with
  | Gt => true
  | _ => false
  end.

(** [Math.round]: nearest integer, halves go up. *)
Definition Math_round (q : Q) : Z := Qfloor (q + (1 # 2)).

(** The four numbers handed to [ctx.drawImage] (line 62). *)
Record placement : Type := Placement {
  x : Z;
  y : Z;
  logoWidthFinal : Q;
  logoHeightFinal : Q
}.

(** Lines 43-55: the resize of a logo that is too large.  The two [if]
    statements run one after the other; the second one tests the height the
    first one may have changed. *)
Definition logo_scale (width logoWidth logoHeight : Q) : Q * Q :=
  let maxLogoWidth := width / 5 in
  let maxLogoHeight := width / 5 in
  let logoWidthFinal := logoWidth in
  let logoHeightFinal := logoHeight in
  let '(logoWidthFinal, logoHeightFinal) :=
    if Qgtb logoWidth maxLogoWidth
    then (maxLogoWidth, (logoHeight / logoWidth) * maxLogoWidth)
    else (logoWidthFinal, logoHeightFinal) in
  let '(logoWidthFinal, logoHeightFinal) :=
    if Qgtb logoHeightFinal maxLogoHeight
    then ((logoWidth / logoHeight) * maxLogoHeight, maxLogoHeight)
    else (logoWidthFinal, logoHeightFinal) in
  (logoWidthFinal, logoHeightFinal).

(** Lines 43-59: scale, then centre. *)
Definition logo_placement (width logoWidth logoHeight : Q) : placement :=
  let '(logoWidthFinal, logoHeightFinal) :=
    logo_scale width logoWidth logoHeight in
  let x := Math_round ((width - logoWidthFinal) / 2) in
  let y := Math_round ((width - logoHeightFinal) / 2) in
  Placement x y logoWidthFinal logoHeightFinal.

(** The scaling procedure as section 4.2 of the specification words it
    (steps 2 to 4), kept apart from [logo_scale] to compare the two. *)
Definition spec_scale (width lw lh : Q) : Q * Q :=
  let maxW := width / 5 in
  let maxH := width / 5 in
  let '(scaledW, scaledH) :=
    if Qgtb lw maxW then (maxW, lh * (maxW / lw)) else (lw, lh) in
  if Qgtb scaledH maxH then (lw * (maxH / lh), maxH) else (scaledW, scaledH).

End Geometry.

(** ** The logo geometry in binary64 *)

(** [server.js] computes the sizes with JavaScript numbers, which are IEEE
    754 binary64 values.  Two embeddings of lines 43-59 carry the rounding.
    [Rounded] is written over [Q]: every arithmetic operation returns the
    rational nearest to its exact result among those with a 53-bit
    significand, ties going to the even significand.  [Doubles] is written
    over the primitive floats of Rocq, which are the machine's binary64
    values, and computes. *)

Module Rounded.
Import Geometry.

(** The unit roundoff of binary64, [2 ^ -53]. *)
Definition u : Q := 1 # 9007199254740992.

(** Rounding a rational to an integer, ties to even. *)
Definition rne (s : Q) : Z :=
  let f := Qfloor s in
  match Qcompare (s - inject_Z f)%Q (1 # 2)%Q with
  | Lt => f
  | Gt => (f + 1)%Z
  | Eq => if Z.even f then f else (f + 1)%Z
  end.

(** The exponent of a positive rational: [2 ^ ilog2 q <= q < 2 ^ (ilog2 q + 1)]. *)
Definition ilog2 (q : Q) : Z :=
  let k := (Z.log2 (Qnum q) - Z.log2 (Zpos (Qden q)))%Z in
  if Qle_bool (2 ^ k)%Q q then k else (k - 1)%Z.

(** Rounding to a significand of 53 bits, whatever the exponent. *)
Definition fl (q : Q) : Q :=
  match Qnum q with
  | Z0 => 0
  | Zpos _ =>
      let e := (ilog2 q - 52)%Z in
      inject_Z (rne (q / 2 ^ e)) * 2 ^ e
  | Zneg _ =>
      let e := (ilog2 (- q) - 52)%Z in
      - (inject_Z (rne (- q / 2 ^ e)) * 2 ^ e)
  end.

(** The smallest positive normal double and the largest finite one. *)
Definition min_normal : Q := 2 ^ (-1022).
Definition max_double : Q := (2 ^ 53 - 1) * 2 ^ 971.

(** The double that an operation with exact result [q] returns.  The
    embedding covers the normal range: it gives no answer where the machine
    would produce a subnormal number or an infinity. *)
Definition double (q : Q) : option Q :=
  if Qeq_bool q 0 then Some 0
  else if Qle_bool min_normal (Qabs q) && Qle_bool (Qabs (fl q)) max_double
       then Some (fl q)
       else None.

(** [a - b], [a * b] and [a / b] on doubles; a division by zero, which
    gives an infinity or a NaN, is not covered either. *)
Definition sub (a b : Q) : option Q := double (a - b).
Definition mul (a b : Q) : option Q := double (a * b).
Definition div (a b : Q) : option Q :=
  if Qeq_bool b 0 then None else double (a / b).

(** Lines 43-55. *)
Definition logo_scale (width logoWidth logoHeight : Q) : option (Q * Q) :=
  maxLogoWidth ← div width 5;
  maxLogoHeight ← div width 5;
  let logoWidthFinal := logoWidth in
  let logoHeightFinal := logoHeight in
  '(logoWidthFinal, logoHeightFinal) ←
    (if Qgtb logoWidth maxLogoWidth
     then ratio ← div logoHeight logoWidth;
          scaled ← mul ratio maxLogoWidth;
          Some (maxLogoWidth, scaled)
     else Some (logoWidthFinal, logoHeightFinal));
  if Qgtb logoHeightFinal maxLogoHeight
  then ratio ← div logoWidth logoHeight;
       scaled ← mul ratio maxLogoHeight;
       Some (scaled, maxLogoHeight)
  else Some (logoWidthFinal, logoHeightFinal).

(** Lines 58 and 59: [Math.round((width - size) / 2)]. *)
Definition origin (width size : Q) : option Z :=
  difference ← sub width size;
  half ← div difference 2;
  Some (Math_round half).

(** Lines 43-59. *)
Definition logo_placement (width logoWidth logoHeight : Q) : option placement :=
  '(logoWidthFinal, logoHeightFinal) ← logo_scale width logoWidth logoHeight;
  x ← origin width logoWidthFinal;
  y ← origin width logoHeightFinal;
  Some (Placement x y logoWidthFinal logoHeightFinal).

(** The largest size considered for a canvas or an image, [2 ^ 53]: up to
    it every integer is a double. *)
Definition max_size : Q := 9007199254740992.

End Rounded.

Module Doubles.
Import PrimFloat SpecFloat FloatOps.

(** The rational a finite double stands for. *)
Definition value (f : float) : option Q :=
  match Prim2SF f with
  | S754_zero _ => Some 0
  | S754_finite s m e =>
      Some (Qred ((if s then -1 else 1) * inject_Z (Zpos m) * 2 ^ e))
  | _ => None
  end.

(** The double nearest to [m * 2 ^ e], and the double of an integer. *)
Definition of_scaled (m e : Z) : float :=
  SF2Prim (binary_normalize prec emax m e false).
Definition of_Z (z : Z) : float := of_scaled z 0.

(** [a > b]. *)
Definition gt (a b : float) : bool := ltb b a.

(** [Math.round] of a finite double. *)
Definition Math_round (f : float) : option Z :=
  option_map Geometry.Math_round (value f).

Record placement : Type := Placement {
  x : option Z;
  y : option Z;
  logoWidthFinal : float;
  logoHeightFinal : float
}.

(** Lines 43-55. *)
Definition logo_scale (width logoWidth logoHeight : float) : float * float :=
  let maxLogoWidth := (width / 5)%float in
  let maxLogoHeight := (width / 5)%float in
  let logoWidthFinal := logoWidth in
  let logoHeightFinal := logoHeight in
  let '(logoWidthFinal, logoHeightFinal) :=
    if gt logoWidth maxLogoWidth
    then (maxLogoWidth, ((logoHeight / logoWidth) * maxLogoWidth)%float)
    else (logoWidthFinal, logoHeightFinal) in
  let '(logoWidthFinal, logoHeightFinal) :=
    if gt logoHeightFinal maxLogoHeight
    then (((logoWidth / logoHeight) * maxLogoHeight)%float, maxLogoHeight)
    else (logoWidthFinal, logoHeightFinal) in
  (logoWidthFinal, logoHeightFinal).

(** Lines 43-59. *)
Definition logo_placement (width logoWidth logoHeight : float) : placement :=
  let '(logoWidthFinal, logoHeightFinal) :=
    logo_scale width logoWidth logoHeight in
  let x := Math_round ((width - logoWidthFinal) / 2)%float in
  let y := Math_round ((width - logoHeightFinal) / 2)%float in
  Placement x y logoWidthFinal logoHeightFinal.

(** The scaling procedure as section 4.2 of the specification words it,
    with its own order of operations: [lh * (maxW / lw)] and
    [lw * (maxH / lh)]. *)
Definition spec_scale (width lw lh : float) : float * float :=
  let maxW := (width / 5)%float in
  let maxH := (width / 5)%float in
  let '(scaledW, scaledH) :=
    if gt lw maxW then (maxW, (lh * (maxW / lw))%float) else (lw, lh) in
  if gt scaledH maxH then ((lw * (maxH / lh))%float, maxH) else (scaledW, scaledH).

(** A procedure that is not the one of the code: its second step scales
    the sizes the first step left, instead of the natural ones. *)
Definition rescale_step3 (width lw lh : float) : float * float :=
  let maxW := (width / 5)%float in
  let maxH := (width / 5)%float in
  let '(scaledW, scaledH) :=
    if gt lw maxW then (maxW, ((lh / lw) * maxW)%float) else (lw, lh) in
  if gt scaledH maxH
  then (((scaledW / scaledH) * maxH)%float, maxH)
  else (scaledW, scaledH).

(** Whether a double stands for the rational [q]. *)
Definition is_value (f : float) (q : Q) : bool :=
  match value f with
  | Some v => Qeq_bool v q
  | None => false
  end.

(** Whether the two embeddings give the same placement for a canvas and a
    logo of integer sizes. *)
Definition same_placement (width lw lh : Z) : bool :=
  let d := logo_placement (of_Z width) (of_Z lw) (of_Z lh) in
  match Rounded.logo_placement (inject_Z width) (inject_Z lw) (inject_Z lh) with
  | Some p =>
      bool_decide (x d = Some (Geometry.x p)) &&
      bool_decide (y d = Some (Geometry.y p)) &&
      is_value (logoWidthFinal d) (Geometry.logoWidthFinal p) &&
      is_value (logoHeightFinal d) (Geometry.logoHeightFinal p)
  | None => false
  end.

(** Whether the operations of [Rounded] return, on two finite doubles,
    what the machine returns. *)
Definition same_result (f : float) (q : option Q) : bool :=
  match q with
  | Some v => is_value f v
  | None => false
  end.

Definition same_operations (a b : float) : bool :=
  match value a, value b with
  | Some va, Some vb =>
      same_result (a / b)%float (Rounded.div va vb) &&
      same_result (a * b)%float (Rounded.mul va vb) &&
      same_result (a - b)%float (Rounded.sub va vb) &&
      same_result (b - a)%float (Rounded.sub vb va)
  | _, _ => false
  end.

(** The same on [n] pairs of doubles with full 53-bit significands and
    exponents spread over forty binades, drawn by a linear congruential
    generator. *)
Fixpoint same_on_samples (n : nat) (seed : Z) : bool :=
  match n with
  | O => true
  | S n' =>
      let next s :=
        ((s * 6364136223846793005 + 1442695040888963407)
           mod 18446744073709551616)%Z in
      let s1 := next seed in
      let s2 := next s1 in
      let s3 := next s2 in
      let m1 := (4503599627370496 + (s1 / 4096) mod 4503599627370496)%Z in
      let m2 := (4503599627370496 + (s2 / 4096) mod 4503599627370496)%Z in
      let e1 := ((s3 / 65536) mod 40 - 72)%Z in
      let e2 := ((s3 / 16777216) mod 40 - 72)%Z in
      same_operations (of_scaled m1 e1) (of_scaled m2 e2) &&
      same_on_samples n' s3
  end.

(** The same for every logo of sizes 1 to [n] by 1 to [n]. *)
Definition same_placements (width : Z) (n : nat) : bool :=
  forallb (fun lw => forallb (fun lh => same_placement width lw lh)
                             (map Z.of_nat (seq 1 n)))
          (map Z.of_nat (seq 1 n)).

End Doubles.

(** ** The server *)

Module Server.
Import Geometry.

(** *** Values, paths, files *)

(** The values a parsed JSON body can hold, and [undefined] for a field
    that is not there. *)
#[warnings="-register-all"]
Inductive jsval : Type :=
  | JUndefined
  | JNull
  | JBool (b : bool)
  | JNum (n : Q)
  | JStr (s : string)
  | JArr (items : list jsval)
  | JObj (fields : list (string * jsval)).

(** [!v] is [negb (truthy v)]: [undefined], [null], [false], zero and the
    empty string are falsy, every array and object is truthy. *)
Definition truthy (v : jsval) : bool :=
  match v with
  | JUndefined | JNull => false
  | JBool b => b
  | JNum n => negb (Qeq_bool n 0)
  | JStr s => negb (String.eqb s EmptyString)
  | JArr _ | JObj _ => true
  end.

(** A path is its list of segments; [path.join dir name] adds one. *)
Definition path : Type := list string.
Definition path_join (dir : path) (name : string) : path := dir ++ [name].
Definition path_parent (p : path) : path := removelast p.
Definition path_to_string (p : path) : string := String.concat "/" p.

Definition bytes : Type := list Byte.byte.

Record image : Type := Image {
  img_width : Q;
  img_height : Q;
  img_pixels : bytes
}.

Inductive ec_level : Type := EcL | EcM | EcQ | EcH.

(** The options object given to [QRCode.toCanvas]. *)
Record qr_options : Type := QrOptions {
  errorCorrectionLevel : ec_level;
  margin : Z;
  color_dark : string;
  color_light : string
}.

(** *** The external libraries

    [qrcode] and [canvas] are not part of the repository: their calls are
    functions of their arguments, a rejected promise is [None]. *)
Class Lib : Type := {
  canvas : Type;
  createCanvas : Q -> Q -> canvas;
  QRCode_toCanvas : canvas -> jsval -> qr_options -> option canvas;
  decodeImage : bytes -> option image;
  ctx_drawImage : canvas -> image -> Z -> Z -> Q -> Q -> canvas;
  canvas_toDataURL : canvas -> string;
  Buffer_from_base64 : string -> bytes
}.

(** *** The world *)

Inductive exn : Type :=
  | EncodingError
  | ImageLoadError
  | IOError (p : path).

Inductive res_body : Type :=
  | BodyJson (v : jsval)
  | BodyBuffer (b : bytes).

(** The Express response object: [res.status], [res.setHeader] and the body
    given to [res.json] or [res.send]. *)
Record response : Type := Response {
  res_status : Z;
  res_headers : list (string * string);
  res_sent : option res_body
}.

Definition fresh_response : response := Response 200 [] None.

(** The calls that leave the handler, in the order they are made. *)
Inductive event : Type :=
  | EvCreateCanvas (w h : Q)
  | EvToCanvas (data : jsval) (opts : qr_options)
  | EvLoadImage (p : path)
  | EvDrawImage (x y : Z) (w h : Q)
  | EvMkdir (p : path)
  | EvWriteFile (p : path) (b : bytes)
  | EvSend (status : Z) (b : res_body).

Inductive console_line : Type :=
  | ConsoleLog (msg : string)
  | ConsoleError (msg : string) (e : exn).

Record world : Type := World {
  fs_files : gmap path bytes;      (* regular files and their contents *)
  fs_dirs : gset path;             (* directories *)
  fs_denied : gset path;           (* paths the process may not create or write *)
  cwd : path;                      (* process.cwd() *)
  dirname : path;                  (* __dirname of server.js *)
  clock : Z;                       (* Date.now() *)
  console : list console_line;
  trace : list event;
  res : response
}.

Definition set_fs (files : gmap path bytes) (dirs : gset path) (w : world) : world :=
  World files dirs (fs_denied w) (cwd w) (dirname w) (clock w)
        (console w) (trace w) (res w).
Definition set_console (c : list console_line) (w : world) : world :=
  World (fs_files w) (fs_dirs w) (fs_denied w) (cwd w) (dirname w) (clock w)
        c (trace w) (res w).
Definition set_trace (t : list event) (w : world) : world :=
  World (fs_files w) (fs_dirs w) (fs_denied w) (cwd w) (dirname w) (clock w)
        (console w) t (res w).
Definition set_res (r : response) (w : world) : world :=
  World (fs_files w) (fs_dirs w) (fs_denied w) (cwd w) (dirname w) (clock w)
        (console w) (trace w) r.

(** *** State and exceptions *)

Definition M (A : Type) : Type := world -> world * (exn + A).

Definition ret {A : Type} (a : A) : M A := fun w => (w, inr a).
Definition bind {A B : Type} (c : M A) (k : A -> M B) : M B :=
  fun w =>
    match c w with
    | (w', inr a) => k a w'
    | (w', inl e) => (w', inl e)
    end.
Definition throw {A : Type} (e : exn) : M A := fun w => (w, inl e).
Definition try_catch {A : Type} (c : M A) (h : exn -> M A) : M A :=
  fun w =>
    match c w with
    | (w', inr a) => (w', inr a)
    | (w', inl e) => h e w'
    end.

Notation "'let*' x ':=' c 'in' k" := (bind c (fun x => k))
  (at level 10, x name, c at level 100, k at level 200,
   format "'[v' 'let*'  x  ':='  c  'in' '/' k ']'").
Notation "c ';;;' k" := (bind c (fun _ => k))
  (at level 100, k at level 200, right associativity,
   format "'[v' c  ';;;' '/' k ']'").

Definition emit (e : event) : M unit :=
  fun w => (set_trace (trace w ++ [e]) w, inr tt).
Definition console_log (msg : string) : M unit :=
  fun w => (set_console (console w ++ [ConsoleLog msg]) w, inr tt).
Definition console_error (msg : string) (e : exn) : M unit :=
  fun w => (set_console (console w ++ [ConsoleError msg e]) w, inr tt).

(** *** [fs], [Date], [console] and the response object *)

Definition fs_exists (p : path) (w : world) : bool :=
  bool_decide (p ∈ fs_dirs w) || bool_decide (is_Some (fs_files w !! p)).

Definition fs_existsSync (p : path) : M bool :=
  fun w => (w, inr (fs_exists p w)).

(** [fs.mkdirSync] without the [recursive] option: the parent has to be a
    directory and the path has to be free. *)
Definition mkdir_allowed (p : path) (w : world) : bool :=
  bool_decide (path_parent p ∈ fs_dirs w)
  && negb (fs_exists p w)
  && negb (bool_decide (p ∈ fs_denied w)).

Definition fs_mkdirSync (p : path) : M unit :=
  emit (EvMkdir p) ;;;
  fun w =>
    if mkdir_allowed p w
    then (set_fs (fs_files w) ({[p]} ∪ fs_dirs w) w, inr tt)
    else (w, inl (IOError p)).

(** [fs.writeFileSync]: creates or replaces a regular file in a directory
    that exists. *)
Definition write_allowed (p : path) (w : world) : bool :=
  bool_decide (path_parent p ∈ fs_dirs w)
  && negb (bool_decide (p ∈ fs_dirs w))
  && negb (bool_decide (p ∈ fs_denied w)).

Definition fs_writeFileSync (p : path) (b : bytes) : M unit :=
  emit (EvWriteFile p b) ;;;
  fun w =>
    if write_allowed p w
    then (set_fs (<[p := b]> (fs_files w)) (fs_dirs w) w, inr tt)
    else (w, inl (IOError p)).

Definition Date_now : M Z := fun w => (w, inr (clock w)).
Definition get_dirname : M path := fun w => (w, inr (dirname w)).

Definition res_set_status (code : Z) : M unit :=
  fun w => (set_res (Response code (res_headers (res w)) (res_sent (res w))) w, inr tt).
Definition res_setHeader (name value : string) : M unit :=
  fun w => (set_res (Response (res_status (res w))
                              (res_headers (res w) ++ [(name, value)])
                              (res_sent (res w))) w, inr tt).
Definition res_end (b : res_body) : M unit :=
  fun w =>
    (set_trace (trace w ++ [EvSend (res_status (res w)) b])
       (set_res (Response (res_status (res w)) (res_headers (res w)) (Some b)) w),
     inr tt).
Definition res_json (v : jsval) : M unit := res_end (BodyJson v).
Definition res_send (b : bytes) : M unit := res_end (BodyBuffer b).

(** *** Calls into [canvas] and [qrcode] *)

Section WithLib.
Context `{Lib}.

Definition new_canvas (w h : Q) : M canvas :=
  emit (EvCreateCanvas w h) ;;; ret (createCanvas w h).

Definition toCanvas (cv : canvas) (data : jsval) (opts : qr_options) : M canvas :=
  emit (EvToCanvas data opts) ;;;
  match QRCode_toCanvas cv data opts with
  | Some cv' => ret cv'
  | None => throw EncodingError
  end.

(** [loadImage] of a relative path reads the file under the working
    directory and decodes it; the promise is rejected when the file is not
    there or does not decode. *)
Definition read_image (src : path) (w : world) : option image :=
  fs_files w !! (cwd w ++ src) ≫= decodeImage.

Definition loadImage (src : path) : M image :=
  emit (EvLoadImage src) ;;;
  fun w =>
    match read_image src w with
    | Some img => (w, inr img)
    | None => (w, inl ImageLoadError)
    end.

Definition drawImage (cv : canvas) (img : image) (x y : Z) (w h : Q) : M canvas :=
  emit (EvDrawImage x y w h) ;;; ret (ctx_drawImage cv img x y w h).

(** *** server.js, lines 21-70 *)
Definition generateQRCodeWithLogo
    (dataForQRcode : jsval) (center_image : path) (width : Q) : M string :=
  try_catch
    (let* canvas := new_canvas width width in
     let* canvas := toCanvas canvas dataForQRcode
                      (QrOptions EcH 1 "#000000" "#ffffff") in
     let* img := loadImage center_image in
     let logoWidth := img_width img in
     let logoHeight := img_height img in
     let p := logo_placement width logoWidth logoHeight in
     let* canvas := drawImage canvas img (x p) (y p)
                      (logoWidthFinal p) (logoHeightFinal p) in
     ret (canvas_toDataURL canvas))
    (fun error =>
       console_error "Error generating QR code:" error ;;;
       throw error).

(** *** server.js, lines 80-93 *)
Definition generateQRCodeWithoutLogo (data : jsval) (width : Q) : M string :=
  let* canvas := new_canvas width width in
  let* canvas := toCanvas canvas data
                   (QrOptions EcH 1 "#000000" "#ffffff") in
  ret (canvas_toDataURL canvas).

(** [s.replace(/^prefix/, empty)]: drops the prefix when [s] starts with it. *)
Fixpoint strip_prefix (prefix s : string) : option string :=
  match prefix with
  | EmptyString => Some s
  | String a prefix' =>
      match s with
      | EmptyString => None
      | String b s' => if Ascii.eqb a b then strip_prefix prefix' s' else None
      end
  end.
Definition replace_prefix (prefix s : string) : string :=
  default s (strip_prefix prefix s).

(** The destructuring [const { data, enableLogo = true } = req.body]: a
    field that is missing or [undefined] takes its default. *)
Definition field (req_body : gmap string jsval) (name : string) : jsval :=
  default JUndefined (req_body !! name).
Definition field_default (req_body : gmap string jsval) (name : string)
    (dflt : jsval) : jsval :=
  match field req_body name with
  | JUndefined => dflt
  | v => v
  end.

(** *** server.js, lines 100-137: the [try] block of the handler *)
Definition generate_qr_try (req_body : gmap string jsval) : M unit :=
  let data := field req_body "data" in
  let enableLogo := field_default req_body "enableLogo" (JBool true) in
  if negb (truthy data) then
    res_set_status 400 ;;;
    res_json (JObj [("error", JStr "Missing required field: data")])
  else
    let* qrCodeBase64 :=
      if truthy enableLogo then
        let logoPath := ["src"; "images"; "logo1.jpg"] in
        generateQRCodeWithLogo data logoPath 400
      else
        generateQRCodeWithoutLogo data 400 in
    let base64Data := replace_prefix "data:image/png;base64," qrCodeBase64 in
    let qrCodeBuffer := Buffer_from_base64 base64Data in
    let* __dirname := get_dirname in
    let outputDir := path_join __dirname "output" in
    let* present := fs_existsSync outputDir in
    (if negb present then fs_mkdirSync outputDir else ret tt) ;;;
    let* now := Date_now in
    let outputFileName := ("qr-code-" +:+ pretty now +:+ ".png")%string in
    let outputPath := path_join outputDir outputFileName in
    fs_writeFileSync outputPath qrCodeBuffer ;;;
    console_log ("QR code saved to: " +:+ path_to_string outputPath) ;;;
    res_setHeader "Content-Type" "image/png" ;;;
    res_setHeader "Content-Disposition" "inline; filename=qr-code.png" ;;;
    res_send qrCodeBuffer.

(** *** server.js, lines 99-142: [app.post("/generate-qr", ...)] *)
Definition generate_qr (req_body : gmap string jsval) : M unit :=
  try_catch
    (generate_qr_try req_body)
    (fun error =>
       console_error "Error in /generate-qr:" error ;;;
       res_set_status 500 ;;;
       res_json (JObj [("error", JStr "Failed to generate QR code")])).

(** One request: Express hands the handler a fresh response object. *)
Definition handle_request (req_body : gmap string jsval) (w : world) : world :=
  fst (generate_qr req_body (set_res fresh_response w)).

End WithLib.


End Server.

(** ** The stages of the handler

    Names for the two halves of the [try] block of the handler, generation
    (lines 107-113) and persistence with the answer (lines 115-137), and for
    the constants the statements below mention. *)

Module Stages.
Import Server.

Definition missing_field_body : res_body :=
  BodyJson (JObj [("error", JStr "Missing required field: data")]).
Definition failed_body : res_body :=
  BodyJson (JObj [("error", JStr "Failed to generate QR code")]).
Definition fixed_options : qr_options := QrOptions EcH 1 "#000000" "#ffffff".
Definition logo_path : path := ["src"; "images"; "logo1.jpg"].

Definition output_dir (w : world) : path := path_join (dirname w) "output".
Definition output_path (w : world) : path :=
  path_join (output_dir w) ("qr-code-" +:+ pretty (clock w) +:+ ".png").

(** Kinds of calls, to count attempts in a trace. *)
Definition is_render (ev : event) : bool :=
  match ev with EvToCanvas _ _ => true | _ => false end.
Definition is_load (ev : event) : bool :=
  match ev with EvLoadImage _ => true | _ => false end.
Definition is_write (ev : event) : bool :=
  match ev with EvWriteFile _ _ => true | _ => false end.
Definition is_send (ev : event) : bool :=
  match ev with EvSend _ _ => true | _ => false end.
Definition calls (kind : event -> bool) (t : list event) : nat :=
  length (List.filter kind t).

(** A rendering call with the fixed options, a canvas of side 400. *)
Definition fixed_render (ev : event) : Prop :=
  match ev with
  | EvToCanvas _ opts => opts = fixed_options
  | EvCreateCanvas w h => w = 400 /\ h = 400
  | _ => True
  end.

(** Two worlds that differ in the trace and the console at most. *)
Definition same_machine (w w1 : world) : Prop :=
  fs_files w1 = fs_files w /\ fs_dirs w1 = fs_dirs w /\
  fs_denied w1 = fs_denied w /\ cwd w1 = cwd w /\ dirname w1 = dirname w /\
  clock w1 = clock w /\ res w1 = res w.

Section WithLib.
Context `{Lib}.

Definition generate (data enableLogo : jsval) : M string :=
  if truthy enableLogo
  then generateQRCodeWithLogo data logo_path 400
  else generateQRCodeWithoutLogo data 400.

Definition decode_data_url (qrCodeBase64 : string) : bytes :=
  Buffer_from_base64 (replace_prefix "data:image/png;base64," qrCodeBase64).

Definition save_and_send (qrCodeBuffer : bytes) : M unit :=
  let* __dirname := get_dirname in
  let outputDir := path_join __dirname "output" in
  let* present := fs_existsSync outputDir in
  (if negb present then fs_mkdirSync outputDir else ret tt) ;;;
  let* now := Date_now in
  let outputFileName := ("qr-code-" +:+ pretty now +:+ ".png")%string in
  let outputPath := path_join outputDir outputFileName in
  fs_writeFileSync outputPath qrCodeBuffer ;;;
  console_log ("QR code saved to: " +:+ path_to_string outputPath) ;;;
  res_setHeader "Content-Type" "image/png" ;;;
  res_setHeader "Content-Disposition" "inline; filename=qr-code.png" ;;;
  res_send qrCodeBuffer.

(** The world the [catch] block of the handler leaves. *)
Definition failed (e : exn) (w : world) : world :=
  set_trace (trace w ++ [EvSend 500 failed_body])
    (set_res (Response 500 (res_headers (res w)) (Some failed_body))
       (set_console (console w ++ [ConsoleError "Error in /generate-qr:" e]) w)).

End WithLib.
End Stages.

(** ** A concrete library and a concrete world

    Stand-ins for the external libraries, to run the handler: a canvas is
    the list of what was drawn on it, only strings can be encoded, only a
    non-empty file decodes (to a 200 by 200 image). *)

Module Demo.
Import Server.

Inductive demo_op : Type :=
  | OpQR (data : jsval) (opts : qr_options)
  | OpLogo (x y : Z) (w h : Q).

Definition demo_lib : Lib := {|
  canvas := list demo_op;
  createCanvas := fun _ _ => [];
  QRCode_toCanvas := fun cv data opts =>
    match data with
    | JStr _ => Some (cv ++ [OpQR data opts])
    | _ => None
    end;
  decodeImage := fun b =>
    match b with
    | [] => None
    | _ => Some (Image 200 200 b)
    end;
  ctx_drawImage := fun cv _ x y w h => cv ++ [OpLogo x y w h];
  canvas_toDataURL := fun cv =>
    match cv with
    | [_] => "data:image/png;base64,cXI="
    | _ => "data:image/png;base64,cXIrbG9nbw=="
    end;
  Buffer_from_base64 := String.list_byte_of_string
|}.

Definition logo_file : path := ["app"; "src"; "images"; "logo1.jpg"].

(** The process is started in [/app] as [node src/server.js]. *)
Definition demo_world : world := {|
  fs_files := {[ logo_file := [Byte.xff; Byte.xd8] ]};
  fs_dirs := {[ []; ["app"]; ["app"; "src"]; ["app"; "src"; "images"] ]};
  fs_denied := ∅;
  cwd := ["app"];
  dirname := ["app"; "src"];
  clock := 1700000000000;
  console := [];
  trace := [];
  res := fresh_response
|}.

(** The machine of [demo_world] with the logo file removed. *)
Definition no_logo_world : world := {|
  fs_files := ∅;
  fs_dirs := {[ []; ["app"]; ["app"; "src"]; ["app"; "src"; "images"] ]};
  fs_denied := ∅;
  cwd := ["app"];
  dirname := ["app"; "src"];
  clock := 1700000000000;
  console := [];
  trace := [];
  res := fresh_response
|}.

Definition hello_body (logo : bool) : gmap string jsval :=
  {[ "data" := JStr "hello"; "enableLogo" := JBool logo ]}.

End Demo.

(** ** The environment between requests *)

Module Outcomes.
Import Server Stages.

(** Time passes between two requests: the clock shows [t]. *)
Definition set_clock (t : Z) (w : world) : world :=
  World (fs_files w) (fs_dirs w) (fs_denied w) (cwd w) (dirname w) t
        (console w) (trace w) (res w).

Definition is_draw (ev : event) : bool :=
  match ev with EvDrawImage _ _ _ _ => true | _ => false end.
Definition is_mkdir (ev : event) : bool :=
  match ev with EvMkdir _ => true | _ => false end.

Definition image_headers : list (string * string) :=
  [("Content-Type", "image/png");
   ("Content-Disposition", "inline; filename=qr-code.png")].

(** The data URL the generation stage returns when nothing fails. *)
Definition generated_url `{Lib} (data enableLogo : jsval) (w : world) : option string :=
  match QRCode_toCanvas (createCanvas 400 400) data fixed_options with
  | None => None
  | Some cv =>
      if truthy enableLogo then
        match read_image logo_path w with
        | None => None
        | Some img =>
            let p := Geometry.logo_placement 400 (img_width img) (img_height img) in
            Some (canvas_toDataURL
                    (ctx_drawImage cv img (Geometry.x p) (Geometry.y p)
                       (Geometry.logoWidthFinal p) (Geometry.logoHeightFinal p)))
        end
      else Some (canvas_toDataURL cv)
  end.

(** The calls of the logo stage: none when the encoder failed or the logo
    is off, the load, and the draw when the load succeeded. *)
Definition logo_calls `{Lib} (data enableLogo : jsval) (w : world) : list event :=
  match QRCode_toCanvas (createCanvas 400 400) data fixed_options with
  | None => []
  | Some _ =>
      if truthy enableLogo then
        EvLoadImage logo_path ::
        match read_image logo_path w with
        | None => []
        | Some img =>
            let p := Geometry.logo_placement 400 (img_width img) (img_height img) in
            [EvDrawImage (Geometry.x p) (Geometry.y p)
               (Geometry.logoWidthFinal p) (Geometry.logoHeightFinal p)]
        end
      else []
  end.

Definition is_io (e : exn) : bool :=
  match e with IOError _ => true | _ => false end.

(** A machine on which the image file may not be written. *)
Definition refused_world : world := {|
  fs_files := {[ Demo.logo_file := [Byte.xff; Byte.xd8] ]};
  fs_dirs := {[ []; ["app"]; ["app"; "src"]; ["app"; "src"; "images"] ]};
  fs_denied := {[ ["app"; "src"; "output"; "qr-code-1700000000000.png"] ]};
  cwd := ["app"];
  dirname := ["app"; "src"];
  clock := 1700000000000;
  console := [];
  trace := [];
  res := fresh_response
|}.

(** A machine on which [output] next to [server.js] is a regular file. *)
Definition blocked_world : world := {|
  fs_files := {[ Demo.logo_file := [Byte.xff; Byte.xd8];
                 ["app"; "src"; "output"] := [] ]};
  fs_dirs := {[ []; ["app"]; ["app"; "src"]; ["app"; "src"; "images"] ]};
  fs_denied := ∅;
  cwd := ["app"];
  dirname := ["app"; "src"];
  clock := 1700000000000;
  console := [];
  trace := [];
  res := fresh_response
|}.

End Outcomes.

(** ** Facts about the logo geometry *)

Module GeometryFacts.
Import Geometry.

Lemma Qgtb_true (a b : Q) : Qgtb a b = true <-> b < a.
Proof.
  unfold Qgtb. rewrite (Qgt_alt a b).
  destruct (a ?= b); split; intros H; congruence.
Qed.

Lemma Qgtb_false (a b : Q) : Qgtb a b = false <-> a <= b.
Proof.
  unfold Qgtb. rewrite (Qle_alt a b).
  destruct (a ?= b); split; intros H; congruence.
Qed.

Lemma Qgtb_compat (a a' b b' : Q) : a == a' -> b == b' -> Qgtb a b = Qgtb a' b'.
Proof. intros Ha Hb. unfold Qgtb. now rewrite Ha, Hb. Qed.

(** [Math_round q] is the integer nearest to [q], the upper one at a tie. *)
Lemma Math_round_upper (q : Q) : inject_Z (Math_round q) <= q + (1 # 2).
Proof. apply Qfloor_le. Qed.

Lemma Math_round_lower (q : Q) : q - (1 # 2) < inject_Z (Math_round q).
Proof.
  unfold Math_round.
  pose proof (Qlt_floor (q + (1 # 2))) as H.
  rewrite inject_Z_plus in H. change (inject_Z 1) with 1 in H. lra.
Qed.

Lemma Math_round_nonneg (q : Q) : 0 <= q -> (0 <= Math_round q)%Z.
Proof.
  intros Hq. pose proof (Math_round_lower q) as Hl.
  assert (inject_Z (-1) < inject_Z (Math_round q)) as H
    by (change (inject_Z (-1)) with (-1); lra).
  rewrite <- Zlt_Qlt in H. lia.
Qed.

(** The clamped sizes, case by case. *)
Lemma logo_scale_small (width lw lh : Q) :
  lw <= width / 5 -> lh <= width / 5 -> logo_scale width lw lh = (lw, lh).
Proof.
  intros Hw Hh. unfold logo_scale.
  apply Qgtb_false in Hw. apply Qgtb_false in Hh. now rewrite Hw, Hh.
Qed.

(** No division by zero is executed when the canvas width is positive: the
    guards make the divisor positive. *)
Lemma logo_scale_cases (width lw lh : Q) :
  0 < width ->
  let m := width / 5 in
  let '(w, h) := logo_scale width lw lh in
  (lw <= m /\ lh <= m /\ w = lw /\ h = lh) \/
  (m < lw /\ lh <= lw /\ w = m /\ h = (lh / lw) * m) \/
  (0 < lh /\ m < lh /\ (m < lw -> lw < lh) /\ w = (lw / lh) * m /\ h = m).
Proof.
  intros Hpos m. unfold logo_scale. fold m.
  assert (0 < m) as Hm by (unfold m; apply Qlt_shift_div_l; lra).
  destruct (Qgtb lw m) eqn:E1.
  - apply Qgtb_true in E1.
    assert (0 < lw) as Hlw by lra.
    destruct (Qgtb (lh / lw * m) m) eqn:E2.
    + apply Qgtb_true in E2. right; right.
      assert (1 < lh / lw) as Hr by nra.
      assert (lh == (lh / lw) * lw) as Heq by (field; lra).
      assert (lw < lh) by nra.
      repeat split; auto; lra.
    + apply Qgtb_false in E2. right; left.
      assert (lh / lw <= 1) as Hr by nra.
      assert (lh == (lh / lw) * lw) as Heq by (field; lra).
      repeat split; auto; nra.
  - apply Qgtb_false in E1.
    destruct (Qgtb lh m) eqn:E2.
    + apply Qgtb_true in E2. right; right.
      repeat split; auto; lra.
    + apply Qgtb_false in E2. left. repeat split; auto.
Qed.

(** As rationals, the two orders of the operations give the same sizes:
    the code and the procedure of section 4.2 differ by rounding only. *)
Lemma logo_scale_refines_spec (width lw lh : Q) :
  fst (logo_scale width lw lh) == fst (spec_scale width lw lh) /\
  snd (logo_scale width lw lh) == snd (spec_scale width lw lh).
Proof.
  unfold logo_scale, spec_scale.
  set (m := width / 5).
  assert (lh / lw * m == lh * (m / lw)) as Hh by (unfold Qdiv; ring).
  assert (lw / lh * m == lw * (m / lh)) as Hw by (unfold Qdiv; ring).
  destruct (Qgtb lw m).
  - rewrite <- (Qgtb_compat _ _ _ _ Hh (Qeq_refl m)).
    destruct (Qgtb (lh / lw * m) m); simpl; split; auto; reflexivity.
  - destruct (Qgtb lh m); simpl; split; auto; reflexivity.
Qed.


(** C10. A logo that fits in one fifth of the width both ways keeps its
    natural size: nothing is scaled up. *)
Theorem C10_small_logo_untouched (width lw lh : Q) :
  lw <= width / 5 -> lh <= width / 5 ->
  logoWidthFinal (logo_placement width lw lh) = lw /\
  logoHeightFinal (logo_placement width lw lh) = lh.
Proof.
  intros Hw Hh. unfold logo_placement.
  rewrite (logo_scale_small width lw lh Hw Hh). simpl. split; reflexivity.
Qed.

Lemma C10_small_logo_untouched_witness :
  logoWidthFinal (logo_placement 400 60 40) = 60 /\
  logoHeightFinal (logo_placement 400 60 40) = 40.
Proof.
  apply (C10_small_logo_untouched 400 60 40); unfold Qle; simpl; lia.
Defined.

End GeometryFacts.

(** ** Facts about the rounded geometry *)

Module RoundedFacts.
Import Geometry GeometryFacts Rounded.

Lemma pow2_pos (k : Z) : 0 < 2 ^ k.
Proof. apply Qpower_0_lt. reflexivity. Qed.

Lemma pow2_plus (a b : Z) : 2 ^ (a + b) == 2 ^ a * 2 ^ b.
Proof. apply Qpower_plus. discriminate. Qed.

Lemma pow2_succ (a : Z) : 2 ^ (a + 1) == 2 * 2 ^ a.
Proof. rewrite pow2_plus. change (2 ^ 1) with 2. ring. Qed.

Lemma pow2_le (a b : Z) : (a <= b)%Z -> 2 ^ a <= 2 ^ b.
Proof. intros H. apply Qpower_le_compat_l; [exact H | discriminate]. Qed.

Lemma pow2_lt_inv (a b : Z) : 2 ^ a < 2 ^ b -> (a < b)%Z.
Proof. intros H. apply (Qpower_lt_compat_l_inv 2); [exact H | reflexivity]. Qed.

Lemma pow2_Z (n : Z) : (0 <= n)%Z -> inject_Z (2 ^ n) == 2 ^ n.
Proof. intros H. now rewrite Zpower_Qpower. Qed.

(** [rne] is within one half, monotone, and the identity on integers. *)
Lemma rne_cases (s : Q) :
  rne s = Qfloor s \/ rne s = (Qfloor s + 1)%Z.
Proof. unfold rne. destruct (_ ?= _); [destruct (Z.even _) | |]; auto. Qed.

Lemma rne_err (s : Q) :
  s - (1 # 2) <= inject_Z (rne s) <= s + (1 # 2).
Proof.
  pose proof (Qfloor_le s) as Hl. pose proof (Qlt_floor s) as Hu.
  rewrite inject_Z_plus in Hu. change (inject_Z 1) with 1 in Hu.
  unfold rne.
  destruct (Qcompare_spec (s - inject_Z (Qfloor s)) (1 # 2)) as [E | E | E];
    try destruct (Z.even _);
    try (rewrite inject_Z_plus; change (inject_Z 1) with 1); lra.
Qed.

Lemma rne_Z (n : Z) : rne (inject_Z n) = n.
Proof.
  unfold rne. rewrite Qfloor_Z.
  assert (Qcompare (inject_Z n - inject_Z n) (1 # 2) = Lt) as ->
    by (rewrite <- Qlt_alt; lra).
  reflexivity.
Qed.

Lemma rne_compat (s t : Q) : s == t -> rne s = rne t.
Proof.
  intros E. unfold rne. rewrite (Qfloor_comp s t E).
  assert (Qcompare (s - inject_Z (Qfloor t)) (1 # 2) =
          Qcompare (t - inject_Z (Qfloor t)) (1 # 2)) as ->
    by (apply Qcompare_comp; [rewrite E; reflexivity | reflexivity]).
  reflexivity.
Qed.

Lemma rne_le (s t : Q) : s <= t -> (rne s <= rne t)%Z.
Proof.
  intros Hst.
  pose proof (Qfloor_resp_le s t Hst) as Hf.
  destruct (Z.eq_dec (Qfloor s) (Qfloor t)) as [Heq | Hne].
  - unfold rne. rewrite Heq.
    destruct (Qcompare_spec (s - inject_Z (Qfloor t)) (1 # 2)) as [E1 | E1 | E1];
      destruct (Qcompare_spec (t - inject_Z (Qfloor t)) (1 # 2)) as [E2 | E2 | E2];
      try destruct (Z.even (Qfloor t)); try lia; exfalso; lra.
  - destruct (rne_cases s) as [-> | ->]; destruct (rne_cases t) as [-> | ->]; lia.
Qed.

Lemma Q_as_fraction (q : Q) : q * inject_Z (Zpos (Qden q)) == inject_Z (Qnum q).
Proof. destruct q as [n d]. unfold Qeq. simpl. lia. Qed.

Lemma Zlog2_bounds (n : Z) :
  (0 < n)%Z -> 2 ^ Z.log2 n <= inject_Z n /\ inject_Z n < 2 * 2 ^ Z.log2 n.
Proof.
  intros Hn. destruct (Z.log2_spec n Hn) as [Hl Hu].
  pose proof (Z.log2_nonneg n) as H0.
  rewrite <- pow2_succ.
  rewrite <- (pow2_Z (Z.log2 n)) by lia.
  rewrite <- (pow2_Z (Z.log2 n + 1)) by lia.
  replace (Z.log2 n + 1)%Z with (Z.succ (Z.log2 n)) by lia.
  split; [rewrite <- Zle_Qle | rewrite <- Zlt_Qlt]; assumption.
Qed.

(** [ilog2 q] is the exponent of the binade of [q]. *)
Lemma ilog2_spec (q : Q) :
  0 < q -> 2 ^ ilog2 q <= q /\ q < 2 * 2 ^ ilog2 q.
Proof.
  intros Hq.
  assert (0 < Qnum q)%Z as Hn by (destruct q as [n d]; unfold Qlt in Hq; simpl in *; lia).
  pose proof (Q_as_fraction q) as Hfrac.
  destruct (Zlog2_bounds (Qnum q) Hn) as [Ha Ha'].
  destruct (Zlog2_bounds (Zpos (Qden q)) eq_refl) as [Hb Hb'].
  set (N := inject_Z (Qnum q)) in *. set (D := inject_Z (Zpos (Qden q))) in *.
  set (a := Z.log2 (Qnum q)) in *. set (b := Z.log2 (Zpos (Qden q))) in *.
  pose proof (pow2_pos a) as HA. pose proof (pow2_pos b) as HB.
  unfold ilog2. fold a b.
  pose proof (pow2_pos (a - b)) as HP.
  assert (2 ^ (a - b) * 2 ^ b == 2 ^ a) as HPB
    by (rewrite <- pow2_plus; replace (a - b + b)%Z with a by lia; reflexivity).
  assert (2 * 2 ^ (a - b - 1) == 2 ^ (a - b)) as HP1
    by (rewrite <- pow2_succ; replace (a - b - 1 + 1)%Z with (a - b)%Z by lia;
        reflexivity).
  set (P := 2 ^ (a - b)) in *. set (A := 2 ^ a) in *. set (B := 2 ^ b) in *.
  assert (0 < D) as HD by lra.
  destruct (Qle_bool P q) eqn:E.
  - apply Qle_bool_iff in E. split; [exact E |].
    destruct (Qlt_le_dec q (2 * P)) as [Hlt | Hge]; [exact Hlt | exfalso].
    assert (0 <= (q - 2 * P) * D) as H1 by (apply Qmult_le_0_compat; lra).
    assert (0 <= P * (D - B)) as H2 by (apply Qmult_le_0_compat; lra).
    lra.
  - assert (q < P) as Hlt.
    { destruct (Qlt_le_dec q P) as [Hl | Hg]; [exact Hl |].
      apply Qle_bool_iff in Hg. congruence. }
    set (P' := 2 ^ (a - b - 1)) in *.
    split; [| lra].
    destruct (Qlt_le_dec q P') as [Hl | Hg]; [exfalso | exact Hg].
    assert (0 <= (P' - q) * D) as H1 by (apply Qmult_le_0_compat; lra).
    assert (0 < P' * (2 * B - D)) as H2
      by (apply Qmult_lt_0_compat; [apply pow2_pos | lra]).
    assert (P * B == 2 * P' * B) as H3 by (rewrite <- HP1; ring).
    lra.
Qed.

Lemma ilog2_unique (q : Q) (i : Z) :
  2 ^ i <= q -> q < 2 * 2 ^ i -> ilog2 q = i.
Proof.
  intros Hl Hu.
  assert (0 < q) as Hq by (pose proof (pow2_pos i); lra).
  destruct (ilog2_spec q Hq) as [Hl' Hu'].
  rewrite <- pow2_succ in Hu, Hu'.
  assert (ilog2 q < i + 1)%Z by (apply pow2_lt_inv; lra).
  assert (i < ilog2 q + 1)%Z by (apply pow2_lt_inv; lra).
  lia.
Qed.

Lemma pow2_52 : 2 ^ 52 == 4503599627370496.
Proof. vm_compute. reflexivity. Qed.

(** The shape of [fl q] for a positive [q]: a 53-bit integer times a power
    of two. *)
Lemma fl_pos_form (q : Q) :
  0 < q ->
  let e := (ilog2 q - 52)%Z in
  let s := q / 2 ^ e in
  fl q = inject_Z (rne s) * 2 ^ e /\
  s * 2 ^ e == q /\
  4503599627370496 <= s /\ s < 2 * 4503599627370496 /\
  (4503599627370496 <= rne s <= 2 * 4503599627370496)%Z.
Proof.
  intros Hq. cbv zeta.
  set (e := (ilog2 q - 52)%Z). set (s := q / 2 ^ e).
  pose proof (pow2_pos e) as He.
  assert (s * 2 ^ e == q) as Hs by (unfold s; field; lra).
  destruct (ilog2_spec q Hq) as [Hl Hu].
  assert (2 ^ ilog2 q == 4503599627370496 * 2 ^ e) as Hpow.
  { replace (ilog2 q) with (52 + e)%Z by (unfold e; lia).
    rewrite pow2_plus, pow2_52. reflexivity. }
  rewrite Hpow in Hl, Hu.
  assert (4503599627370496 <= s) as Hs1.
  { destruct (Qlt_le_dec s 4503599627370496) as [Hlt | Hge]; [exfalso | exact Hge].
    assert (0 < (4503599627370496 - s) * 2 ^ e) as H1
      by (apply Qmult_lt_0_compat; lra).
    lra. }
  assert (s < 2 * 4503599627370496) as Hs2.
  { destruct (Qlt_le_dec s (2 * 4503599627370496)) as [Hlt | Hge];
      [exact Hlt | exfalso].
    assert (0 <= (s - 2 * 4503599627370496) * 2 ^ e) as H1
      by (apply Qmult_le_0_compat; lra).
    lra. }
  split.
  - unfold fl. destruct q as [[| n | n] d]; try (unfold Qlt in Hq; simpl in Hq; lia).
    reflexivity.
  - split; [exact Hs |]. split; [exact Hs1 |]. split; [exact Hs2 |].
    split.
    + rewrite <- (rne_Z 4503599627370496). apply rne_le. exact Hs1.
    + rewrite <- (rne_Z (2 * 4503599627370496)). apply rne_le.
      change (inject_Z (2 * 4503599627370496)) with (2 * 4503599627370496). lra.
Qed.

(** Correct rounding: the relative error is at most [u] = 2^-53. *)
Lemma fl_err (q : Q) :
  0 <= q -> (1 - u) * q <= fl q /\ fl q <= (1 + u) * q.
Proof.
  intros Hq0.
  destruct (Qlt_le_dec 0 q) as [Hq | Hq].
  2:{ assert (q == 0) as E by lra.
      assert (fl q = 0) as ->.
      { unfold fl. destruct q as [[| n | n] d]; try reflexivity;
          unfold Qeq in E; simpl in E; lia. }
      rewrite E. split; unfold u; lra. }
  destruct (fl_pos_form q Hq) as (-> & Hs & Hs1 & Hs2 & _).
  set (e := (ilog2 q - 52)%Z) in *. set (s := q / 2 ^ e) in *.
  pose proof (pow2_pos e) as He.
  pose proof (rne_err s) as [Hr1 Hr2].
  set (M := inject_Z (rne s)) in *.
  assert (0 <= (M - (s - (1 # 2))) * 2 ^ e) as H1 by (apply Qmult_le_0_compat; lra).
  assert (0 <= (s + (1 # 2) - M) * 2 ^ e) as H2 by (apply Qmult_le_0_compat; lra).
  assert (0 <= (s - 4503599627370496) * 2 ^ e) as H3
    by (apply Qmult_le_0_compat; lra).
  unfold u. split; lra.
Qed.

Lemma fl_0 : fl 0 = 0.
Proof. reflexivity. Qed.

Lemma fl_1 : fl 1 == 1.
Proof. vm_compute. reflexivity. Qed.

Lemma fl_nonneg (q : Q) : 0 <= q -> 0 <= fl q.
Proof.
  intros Hq. destruct (fl_err q Hq) as [Hl _].
  assert (0 <= (1 - u) * q) by (apply Qmult_le_0_compat; [unfold u |]; lra).
  lra.
Qed.

Lemma fl_pos (q : Q) : 0 < q -> 0 < fl q.
Proof.
  intros Hq. destruct (fl_err q (Qlt_le_weak _ _ Hq)) as [Hl _].
  assert (0 < (1 - u) * q) by (apply Qmult_lt_0_compat; [unfold u |]; lra).
  lra.
Qed.

(** Rounding is monotone. *)
Lemma fl_le (a b : Q) : 0 <= a -> a <= b -> fl a <= fl b.
Proof.
  intros Ha Hab.
  destruct (Qlt_le_dec 0 a) as [Ha0 | Ha0].
  2:{ assert (fl a = 0) as ->.
      { unfold fl. destruct a as [[| n | n] d]; try reflexivity;
          unfold Qle in *; simpl in *; lia. }
      apply fl_nonneg. lra. }
  assert (0 < b) as Hb0 by lra.
  destruct (fl_pos_form a Ha0) as (-> & Hsa & Ha1 & Ha2 & HMa1 & HMa2).
  destruct (fl_pos_form b Hb0) as (-> & Hsb & Hb1 & Hb2 & HMb1 & HMb2).
  destruct (ilog2_spec a Ha0) as [Hal Hau].
  destruct (ilog2_spec b Hb0) as [Hbl Hbu].
  assert (ilog2 a <= ilog2 b)%Z as Hi.
  { rewrite <- pow2_succ in Hbu.
    assert (ilog2 a < ilog2 b + 1)%Z by (apply pow2_lt_inv; lra). lia. }
  set (ea := (ilog2 a - 52)%Z) in *. set (eb := (ilog2 b - 52)%Z) in *.
  pose proof (pow2_pos ea) as Hea. pose proof (pow2_pos eb) as Heb.
  destruct (Z.eq_dec (ilog2 a) (ilog2 b)) as [Heq | Hne].
  - assert (eb = ea) as -> by (unfold ea, eb; lia).
    apply Qmult_le_compat_r; [| lra].
    rewrite <- Zle_Qle. apply rne_le.
    apply Qmult_le_r with (z := 2 ^ ea); [exact Hea |]. lra.
  - assert (2 * 2 ^ ea <= 2 ^ eb) as Hpow
      by (rewrite <- pow2_succ; apply pow2_le; unfold ea, eb; lia).
    rewrite Zle_Qle in HMa2, HMb1.
    change (inject_Z (2 * 4503599627370496)) with (2 * 4503599627370496) in HMa2.
    change (inject_Z 4503599627370496) with 4503599627370496 in HMb1.
    set (Ma := inject_Z (rne (a / 2 ^ ea))) in *.
    set (Mb := inject_Z (rne (b / 2 ^ eb))) in *.
    assert (0 <= (2 * 4503599627370496 - Ma) * 2 ^ ea) as H1
      by (apply Qmult_le_0_compat; lra).
    assert (0 <= (Mb - 4503599627370496) * 2 ^ eb) as H2
      by (apply Qmult_le_0_compat; lra).
    lra.
Qed.

(** Rounding respects equality of rationals. *)
Lemma fl_compat (a b : Q) : 0 <= a -> a == b -> fl a == fl b.
Proof.
  intros Ha Hab.
  assert (fl a <= fl b) by (apply fl_le; lra).
  assert (fl b <= fl a) by (apply fl_le; lra).
  lra.
Qed.

(** A rounded number is a double: rounding it again changes nothing. *)
Lemma fl_idem (q : Q) : 0 <= q -> fl (fl q) == fl q.
Proof.
  intros Hq0.
  destruct (Qlt_le_dec 0 q) as [Hq | Hq].
  2:{ assert (fl q = 0) as ->.
      { unfold fl. destruct q as [[| n | n] d]; try reflexivity;
          unfold Qle in *; simpl in *; lia. }
      reflexivity. }
  pose proof (fl_pos q Hq) as Hr.
  destruct (fl_pos_form q Hq) as (Hform & _ & _ & _ & HM1 & HM2).
  set (e := (ilog2 q - 52)%Z) in *. set (M := rne (q / 2 ^ e)) in *.
  pose proof (pow2_pos e) as He.
  destruct (fl_pos_form (fl q) Hr) as (Hform' & _).
  rewrite Hform'. clear Hform'. rewrite Hform. clear Hform.
  set (r := inject_Z M * 2 ^ e).
  destruct (Z.eq_dec M (2 * 4503599627370496)%Z) as [Hmax | Hlt].
  - assert (r == 4503599627370496 * 2 ^ (e + 1)) as Hr2
      by (unfold r; rewrite Hmax, pow2_succ;
          change (inject_Z (2 * 4503599627370496)) with (2 * 4503599627370496);
          ring).
    pose proof (pow2_pos (e + 1)) as He1.
    assert (ilog2 r = (e + 53)%Z) as Hi.
    { apply ilog2_unique.
      - replace (e + 53)%Z with (52 + (e + 1))%Z by lia.
        rewrite pow2_plus, pow2_52. lra.
      - replace (e + 53)%Z with (52 + (e + 1))%Z by lia.
        rewrite pow2_plus, pow2_52. lra. }
    rewrite Hi. replace (e + 53 - 52)%Z with (e + 1)%Z by lia.
    assert (r / 2 ^ (e + 1) == inject_Z 4503599627370496) as Hs
      by (rewrite Hr2; change (inject_Z 4503599627370496) with 4503599627370496;
          field; lra).
    rewrite (rne_compat _ _ Hs), rne_Z.
    change (inject_Z 4503599627370496) with 4503599627370496. lra.
  - assert (ilog2 r = (e + 52)%Z) as Hi.
    { assert (4503599627370496 <= inject_Z M) as B1
        by (change 4503599627370496 with (inject_Z 4503599627370496);
            rewrite <- Zle_Qle; lia).
      assert (inject_Z M < 2 * 4503599627370496) as B2
        by (change (2 * 4503599627370496) with (inject_Z (2 * 4503599627370496));
            rewrite <- Zlt_Qlt; lia).
      assert (0 <= (inject_Z M - 4503599627370496) * 2 ^ e) as H1
        by (apply Qmult_le_0_compat; lra).
      assert (0 < (2 * 4503599627370496 - inject_Z M) * 2 ^ e) as H2
        by (apply Qmult_lt_0_compat; lra).
      apply ilog2_unique;
        replace (e + 52)%Z with (52 + e)%Z by lia;
        rewrite pow2_plus, pow2_52; unfold r; lra. }
    rewrite Hi. replace (e + 52 - 52)%Z with e by lia.
    assert (r / 2 ^ e == inject_Z M) as Hs by (unfold r; field; lra).
    rewrite (rne_compat _ _ Hs), rne_Z. reflexivity.
Qed.

(** Below a double, the rounded value stays below it. *)
Lemma fl_le_double (x y : Q) : 0 <= x -> x <= y -> fl y == y -> fl x <= y.
Proof. intros Hx Hxy Hy. rewrite <- Hy. now apply fl_le. Qed.

(** A quotient of doubles that is at most one rounds to at most one, and
    scaling a double [m] by it rounds to at most [m]. *)
Lemma scaled_le_max (a b m : Q) :
  0 < a -> a <= b -> 0 <= m -> fl m == m ->
  fl (fl (a / b) * m) <= m.
Proof.
  intros Ha Hab Hm Hrep.
  assert (0 < a / b) as Hq by (apply Qlt_shift_div_l; lra).
  assert (a / b <= 1) as Hq1 by (apply Qle_shift_div_r; lra).
  assert (fl (a / b) <= 1) as Hf
    by (apply fl_le_double; [lra | exact Hq1 | apply fl_1]).
  pose proof (fl_nonneg (a / b) (Qlt_le_weak _ _ Hq)) as Hf0.
  apply fl_le_double; [| | exact Hrep].
  - apply Qmult_le_0_compat; lra.
  - assert (0 <= (1 - fl (a / b)) * m) by (apply Qmult_le_0_compat; lra). lra.
Qed.

(** The value of a clamp that fired: within [(1 - u)^2] and [(1 + u)^2] of
    the exact product. *)
Lemma scaled_err (a b m : Q) :
  0 < a -> 0 < b -> 0 <= m ->
  (1 - u) * (1 - u) * (a * m) <= fl (fl (a / b) * m) * b /\
  fl (fl (a / b) * m) * b <= (1 + u) * (1 + u) * (a * m).
Proof.
  intros Ha Hb Hm.
  assert (0 < a / b) as Hq by (apply Qlt_shift_div_l; lra).
  assert (a / b * b == a) as Hab by (field; lra).
  destruct (fl_err (a / b) (Qlt_le_weak _ _ Hq)) as [E1 E2].
  pose proof (fl_nonneg (a / b) (Qlt_le_weak _ _ Hq)) as Hf0.
  assert (0 <= fl (a / b) * m) as Hp by (apply Qmult_le_0_compat; lra).
  destruct (fl_err (fl (a / b) * m) Hp) as [E3 E4].
  set (f := fl (a / b)) in *. set (q := a / b) in *.
  set (r := fl (f * m)) in *.
  assert (0 <= 1 - u) as Hu1 by (unfold u; lra).
  assert (0 <= 1 + u) as Hu2 by (unfold u; lra).
  assert (0 <= (r - (1 - u) * (f * m)) * b) as H1
    by (apply Qmult_le_0_compat; lra).
  assert (0 <= ((1 + u) * (f * m) - r) * b) as H2
    by (apply Qmult_le_0_compat; lra).
  assert (0 <= (1 - u) * ((f - (1 - u) * q) * (m * b))) as H3.
  { apply Qmult_le_0_compat; [lra |]. apply Qmult_le_0_compat; [lra |].
    apply Qmult_le_0_compat; lra. }
  assert (0 <= (1 + u) * (((1 + u) * q - f) * (m * b))) as H4.
  { apply Qmult_le_0_compat; [lra |]. apply Qmult_le_0_compat; [lra |].
    apply Qmult_le_0_compat; lra. }
  assert (q * (m * b) == a * m) as H5 by (rewrite <- Hab; ring).
  split.
  - assert ((1 - u) * (1 - u) * (a * m) == (1 - u) * ((1 - u) * (q * (m * b)))) as ->
      by (rewrite H5; ring).
    assert (r * b == (r - (1 - u) * (f * m)) * b
                     + (1 - u) * ((f - (1 - u) * q) * (m * b))
                     + (1 - u) * ((1 - u) * (q * (m * b)))) as -> by ring.
    lra.
  - assert ((1 + u) * (1 + u) * (a * m) == (1 + u) * ((1 + u) * (q * (m * b)))) as ->
      by (rewrite H5; ring).
    assert (r * b == (1 + u) * ((1 + u) * (q * (m * b)))
                     - ((1 + u) * (f * m) - r) * b
                     - (1 + u) * (((1 + u) * q - f) * (m * b))) as -> by ring.
    lra.
Qed.

Lemma max_bounds (width : Q) :
  0 < width ->
  let m := fl (width / 5) in
  0 < m /\ fl m == m /\
  (1 - u) * (width / 5) <= m /\ m <= (1 + u) * (width / 5) /\ m <= width.
Proof.
  intros Hw. cbv zeta.
  assert (0 < width / 5) as H5 by (apply Qlt_shift_div_l; lra).
  assert (width / 5 == width * (1 # 5)) as E5 by (unfold Qdiv; reflexivity).
  destruct (fl_err (width / 5) (Qlt_le_weak _ _ H5)) as [E1 E2].
  split; [apply fl_pos; exact H5 |].
  split; [apply fl_idem; lra |].
  split; [exact E1 |]. split; [exact E2 |].
  unfold u in E2. lra.
Qed.

(** In the range of the sizes, every operation of lines 43-59 has a result
    in the normal range of binary64. *)
Lemma double_mid (q : Q) :
  (1 # 1152921504606846976) <= q ->
  q <= 1298074214633706907132624082305024 ->
  double q = Some (fl q).
Proof.
  intros Hlo Hhi. unfold double.
  destruct (Qeq_bool q 0) eqn:E0; [apply Qeq_bool_eq in E0; lra |].
  assert (Qle_bool min_normal (Qabs q) = true) as ->.
  { apply Qle_bool_iff. rewrite Qabs_pos by lra.
    assert (min_normal <= 1 # 1152921504606846976) as Hmin
      by (apply Qle_bool_iff; vm_compute; reflexivity).
    lra. }
  assert (Qle_bool (Qabs (fl q)) max_double = true) as ->.
  { apply Qle_bool_iff. rewrite Qabs_pos by (apply fl_nonneg; lra).
    assert (fl 1298074214633706907132624082305024
              == 1298074214633706907132624082305024) as Hrep
      by (apply Qeq_bool_eq; vm_compute; reflexivity).
    assert (1298074214633706907132624082305024 <= max_double) as Hmax
      by (apply Qle_bool_iff; vm_compute; reflexivity).
    assert (0 <= q) as Hq by lra.
    pose proof (fl_le_double q _ Hq Hhi Hrep). lra. }
  reflexivity.
Qed.

Lemma div_mid (a b : Q) :
  0 < b ->
  (1 # 1152921504606846976) <= a / b ->
  a / b <= 1298074214633706907132624082305024 ->
  div a b = Some (fl (a / b)).
Proof.
  intros Hb Hlo Hhi. unfold div.
  destruct (Qeq_bool b 0) eqn:E0; [apply Qeq_bool_eq in E0; lra |].
  now apply double_mid.
Qed.

Lemma max_run (width : Q) :
  2 <= width <= max_size ->
  let m := fl (width / 5) in
  div width 5 = Some m /\ (1 # 4) <= m /\ m <= max_size /\ fl m == m /\
  (1 - u) * (width / 5) <= m /\ m <= (1 + u) * (width / 5).
Proof.
  unfold max_size. intros [Hlo Hhi]. cbv zeta.
  destruct (max_bounds width) as (_ & Hrep & M1 & M2 & M3); [lra |].
  assert (width / 5 == width * (1 # 5)) as E5 by (unfold Qdiv; reflexivity).
  split; [apply div_mid; lra |].
  unfold u in *. repeat split; try assumption; lra.
Qed.

Lemma quotient_range (a b : Q) :
  1 <= a <= max_size -> 1 <= b <= max_size ->
  0 < a / b /\ (1 # 9007199254740992) <= a / b /\ a / b <= 9007199254740992.
Proof.
  unfold max_size. intros [Ha1 Ha2] [Hb1 Hb2].
  split; [apply Qlt_shift_div_l; lra |].
  split; [apply Qle_shift_div_l; lra | apply Qle_shift_div_r; lra].
Qed.

(** A clamp that fires: the quotient and the product are both computed. *)
Lemma scaled_run (a b m : Q) :
  1 <= a <= max_size -> 1 <= b <= max_size -> (1 # 4) <= m -> m <= max_size ->
  div a b = Some (fl (a / b)) /\
  mul (fl (a / b)) m = Some (fl (fl (a / b) * m)) /\
  0 < fl (fl (a / b) * m).
Proof.
  intros Ha Hb Hm1 Hm2.
  destruct (quotient_range a b Ha Hb) as (Hq0 & Hq1 & Hq2).
  destruct (fl_err (a / b) (Qlt_le_weak _ _ Hq0)) as [E1 E2].
  set (r := fl (a / b)) in *.
  unfold max_size in *.
  assert (0 <= (r - (1 # 18014398509481984)) * m) as P1
    by (apply Qmult_le_0_compat; unfold u in *; lra).
  assert (0 <= r * (9007199254740992 - m)) as P2
    by (apply Qmult_le_0_compat; unfold u in *; lra).
  assert (0 < r * m) as P3 by (apply Qmult_lt_0_compat; unfold u in *; lra).
  split; [apply div_mid; lra |].
  split; [| apply fl_pos; exact P3].
  unfold mul. apply double_mid; unfold u in *; lra.
Qed.

(** The clamps in binary64, case by case: the sizes are computed, and they
    are the natural ones, or the width is the maximum, or the height is. *)
Lemma rounded_scale_cases (width lw lh : Q) :
  2 <= width <= max_size -> 1 <= lw <= max_size -> 1 <= lh <= max_size ->
  let m := fl (width / 5) in
  exists w h,
    Rounded.logo_scale width lw lh = Some (w, h) /\
    ((lw <= m /\ lh <= m /\ w = lw /\ h = lh) \/
     (m < lw /\ h <= m /\ w = m /\ h = fl (fl (lh / lw) * m)) \/
     (lw <= lh /\ m < lh /\ w = fl (fl (lw / lh) * m) /\ h = m)).
Proof.
  intros Hwidth Hlw Hlh m.
  destruct (max_run width Hwidth) as (Hdiv & Hm1 & Hm2 & Hrep & _).
  fold m in Hdiv, Hm1, Hm2, Hrep.
  destruct (scaled_run lh lw m Hlh Hlw Hm1 Hm2) as (Dh & Mh & _).
  destruct (scaled_run lw lh m Hlw Hlh Hm1 Hm2) as (Dw & Mw & _).
  unfold Rounded.logo_scale. rewrite Hdiv. cbn [mbind option_bind].
  destruct (Qgtb lw m) eqn:E1.
  - apply Qgtb_true in E1.
    rewrite Dh. cbn [mbind option_bind]. rewrite Mh. cbn [mbind option_bind].
    destruct (Qgtb (fl (fl (lh / lw) * m)) m) eqn:E2.
    + apply Qgtb_true in E2.
      rewrite Dw. cbn [mbind option_bind]. rewrite Mw. cbn [mbind option_bind].
      eexists _, _. split; [reflexivity |]. right; right.
      assert (lw <= lh) as Hle.
      { destruct (Qlt_le_dec lh lw) as [Hlt | Hge]; [exfalso | exact Hge].
        assert (0 < lh) as Hlh0 by (destruct Hlh; lra).
        assert (0 <= m) as Hm0 by lra.
        pose proof (scaled_le_max lh lw m Hlh0 (Qlt_le_weak _ _ Hlt) Hm0 Hrep).
        lra. }
      split; [exact Hle |]. split; [lra |]. split; reflexivity.
    + apply Qgtb_false in E2.
      eexists _, _. split; [reflexivity |]. right; left. repeat split; auto.
  - apply Qgtb_false in E1. cbn [mbind option_bind].
    destruct (Qgtb lh m) eqn:E2.
    + apply Qgtb_true in E2.
      rewrite Dw. cbn [mbind option_bind]. rewrite Mw. cbn [mbind option_bind].
      eexists _, _. split; [reflexivity |]. right; right.
      split; [lra |]. split; [exact E2 |]. split; reflexivity.
    + apply Qgtb_false in E2.
      eexists _, _. split; [reflexivity |]. left. repeat split; auto.
Qed.

(** The clamped sizes are positive, at most the maximum the code computed,
    and in the proportion of the natural sizes up to four roundings. *)
Lemma rounded_scale_bounds (width lw lh : Q) :
  2 <= width <= max_size -> 1 <= lw <= max_size -> 1 <= lh <= max_size ->
  let m := fl (width / 5) in
  exists w h,
    Rounded.logo_scale width lw lh = Some (w, h) /\
    0 < w /\ w <= m /\ 0 < h /\ h <= m /\
    (1 - 4 * u) * (h * lw) <= w * lh /\ w * lh <= (1 + 4 * u) * (h * lw).
Proof.
  intros Hwidth Hlw Hlh m.
  destruct (rounded_scale_cases width lw lh Hwidth Hlw Hlh) as (w & h & Hrun & Hc).
  fold m in Hc. exists w, h. split; [exact Hrun |].
  destruct (max_run width Hwidth) as (_ & Hm1 & Hm2 & Hrep & _).
  fold m in Hm1, Hm2, Hrep.
  assert (0 < lw) as Hlw0 by (destruct Hlw; lra).
  assert (0 < lh) as Hlh0 by (destruct Hlh; lra).
  assert (0 < m) as Hm by lra.
  destruct Hc as [(H1 & H2 & -> & ->) | [(H1 & H2 & -> & ->) | (H1 & _ & -> & ->)]].
  - assert (0 < lh * lw) by (apply Qmult_lt_0_compat; lra).
    unfold u. repeat split; try lra.
  - destruct (scaled_run lh lw m Hlh Hlw Hm1 Hm2) as (_ & _ & Hh).
    destruct (scaled_err lh lw m Hlh0 Hlw0 (Qlt_le_weak _ _ Hm)) as [S1 S2].
    assert (0 < lh * m) as HX by (apply Qmult_lt_0_compat; lra).
    assert (m * lh == lh * m) as EX by ring.
    unfold u in *. repeat split; try lra.
  - destruct (scaled_run lw lh m Hlw Hlh Hm1 Hm2) as (_ & _ & Hh).
    destruct (scaled_err lw lh m Hlw0 Hlh0 (Qlt_le_weak _ _ Hm)) as [S1 S2].
    pose proof (scaled_le_max lw lh m Hlw0 H1 (Qlt_le_weak _ _ Hm) Hrep) as Hle.
    assert (0 < lw * m) as HX by (apply Qmult_lt_0_compat; lra).
    assert (m * lw == lw * m) as EX by ring.
    unfold u in *. repeat split; try lra.
Qed.

(** The origin of a size that is at most the maximum: computed,
    nonnegative, and leaving the logo inside the canvas. *)
Lemma rounded_origin_inside (width size : Q) :
  2 <= width <= max_size -> 0 < size -> size <= fl (width / 5) ->
  exists x : Z,
    origin width size = Some x /\ (0 <= x)%Z /\ inject_Z x + size <= width.
Proof.
  intros Hwidth Hs Hm.
  destruct (max_run width Hwidth) as (_ & _ & _ & _ & _ & M2).
  unfold max_size in *. destruct Hwidth as [Hw1 Hw2].
  assert (width / 5 == width * (1 # 5)) as E5 by (unfold Qdiv; reflexivity).
  assert (0 <= width - size) as Hd by (unfold u in *; lra).
  destruct (fl_err (width - size) Hd) as [D1 D2].
  set (d := fl (width - size)) in *.
  assert (d / 2 == d * (1 # 2)) as E2 by (unfold Qdiv; reflexivity).
  assert (0 <= d / 2) as Ht by (unfold u in *; lra).
  destruct (fl_err (d / 2) Ht) as [T1 T2].
  pose proof (fl_nonneg (d / 2) Ht) as T0.
  assert (sub width size = Some d) as Hsub
    by (unfold sub; apply double_mid; unfold u in *; lra).
  assert (div d 2 = Some (fl (d / 2))) as Hdiv
    by (apply div_mid; unfold u in *; lra).
  exists (Math_round (fl (d / 2))).
  split.
  { unfold origin. rewrite Hsub. cbn [mbind option_bind].
    rewrite Hdiv. reflexivity. }
  set (t := fl (d / 2)) in *.
  pose proof (Math_round_upper t) as Hu.
  split; [apply Math_round_nonneg; exact T0 |].
  unfold u in *. lra.
Qed.

(** C2. In binary64, for a canvas width from 2 to [2 ^ 53] and a logo of
    natural sizes from 1 to [2 ^ 53], the placement is computed and keeps
    the logo inside the canvas; both clamped sizes are positive and at most
    the maximum [width / 5] the code computed, which is one fifth of the
    width up to one rounding; and the aspect ratio is the natural one up to
    a relative error of [4 * u = 2 ^ -51]. *)
Theorem C2_placement_within_rounding (width lw lh : Q) :
  2 <= width <= max_size -> 1 <= lw <= max_size -> 1 <= lh <= max_size ->
  exists (p : placement) (m : Q),
    Rounded.logo_placement width lw lh = Some p /\
    div width 5 = Some m /\
    (0 <= x p)%Z /\ (0 <= y p)%Z /\
    inject_Z (x p) + logoWidthFinal p <= width /\
    inject_Z (y p) + logoHeightFinal p <= width /\
    0 < logoWidthFinal p <= m /\
    0 < logoHeightFinal p <= m /\
    (1 - u) * (width / 5) <= m <= (1 + u) * (width / 5) /\
    (1 - 4 * u) * (lw / lh) <= logoWidthFinal p / logoHeightFinal p
      <= (1 + 4 * u) * (lw / lh).
Proof.
  intros Hwidth Hlw Hlh.
  destruct (rounded_scale_bounds width lw lh Hwidth Hlw Hlh)
    as (w & h & Hrun & Hw0 & Hwm & Hh0 & Hhm & R1 & R2).
  destruct (max_run width Hwidth) as (Hdiv & _ & _ & _ & M1 & M2).
  destruct (rounded_origin_inside width w Hwidth Hw0 Hwm) as (px & Hx & Hx0 & Hxw).
  destruct (rounded_origin_inside width h Hwidth Hh0 Hhm) as (py & Hy & Hy0 & Hyh).
  exists (Placement px py w h), (fl (width / 5)).
  split.
  { unfold Rounded.logo_placement. rewrite Hrun. cbn [mbind option_bind].
    rewrite Hx. cbn [mbind option_bind]. rewrite Hy. reflexivity. }
  cbn [x y logoWidthFinal logoHeightFinal].
  split; [exact Hdiv |].
  split; [exact Hx0 |]. split; [exact Hy0 |].
  split; [exact Hxw |]. split; [exact Hyh |].
  split; [split; assumption |]. split; [split; assumption |].
  split; [split; assumption |].
  assert (0 < lh) as Hlh0 by (destruct Hlh; lra).
  assert (0 < h * lh) as Hhl by (apply Qmult_lt_0_compat; lra).
  assert (w / h == (w * lh) / (h * lh)) as -> by (field; lra).
  assert (forall c, c * (lw / lh) == (c * (h * lw)) / (h * lh)) as Hc
    by (intros c; field; lra).
  rewrite !Hc.
  split; (apply Qmult_le_compat_r; [assumption |]);
    apply Qlt_le_weak, Qinv_lt_0_compat; exact Hhl.
Qed.

Lemma C2_placement_within_rounding_witness :
  exists (p : placement) (m : Q),
    Rounded.logo_placement 400 300 100 = Some p /\
    div 400 5 = Some m /\
    (0 <= x p)%Z /\ (0 <= y p)%Z /\
    inject_Z (x p) + logoWidthFinal p <= 400 /\
    inject_Z (y p) + logoHeightFinal p <= 400 /\
    0 < logoWidthFinal p <= m /\
    0 < logoHeightFinal p <= m /\
    (1 - u) * (400 / 5) <= m <= (1 + u) * (400 / 5) /\
    (1 - 4 * u) * (300 / 100) <= logoWidthFinal p / logoHeightFinal p
      <= (1 + 4 * u) * (300 / 100).
Proof.
  apply (C2_placement_within_rounding 400 300 100);
    split; unfold Qle; simpl; lia.
Defined.

(** X1. In binary64 the clamps fit the logo in the square whose side is the
    maximum [width / 5] the code computed: a logo that fits keeps its
    natural sizes, and otherwise the longer side becomes that maximum
    itself, the other side staying positive and at most it. *)
Theorem longer_side_is_clamped (width lw lh : Q) :
  2 <= width <= max_size -> 1 <= lw <= max_size -> 1 <= lh <= max_size ->
  exists w h m : Q,
    Rounded.logo_scale width lw lh = Some (w, h) /\
    div width 5 = Some m /\
    0 < w <= m /\ 0 < h <= m /\
    (lw <= m -> lh <= m -> w = lw /\ h = lh) /\
    (lh <= lw -> m < lw -> w == m) /\
    (lw <= lh -> m < lh -> h == m).
Proof.
  intros Hwidth Hlw Hlh.
  destruct (rounded_scale_bounds width lw lh Hwidth Hlw Hlh)
    as (w & h & Hrun & Hw0 & Hwm & Hh0 & Hhm & _).
  destruct (rounded_scale_cases width lw lh Hwidth Hlw Hlh)
    as (w' & h' & Hrun' & Hc).
  rewrite Hrun in Hrun'. injection Hrun' as <- <-.
  destruct (max_run width Hwidth) as (Hdiv & Hm1 & _ & Hrep & _).
  cbv zeta in Hc. set (m := fl (width / 5)) in *.
  assert (0 < lw) as Hlw0 by (destruct Hlw; lra).
  assert (0 < lh) as Hlh0 by (destruct Hlh; lra).
  exists w, h, m.
  split; [exact Hrun |]. split; [exact Hdiv |].
  split; [split; assumption |]. split; [split; assumption |].
  split; [| split].
  - intros H1 H2.
    destruct Hc as [(_ & _ & -> & ->) | [(H3 & _) | (_ & H3 & _)]].
    + split; reflexivity.
    + lra.
    + lra.
  - intros H1 H2.
    destruct Hc as [(H3 & _) | [(_ & _ & -> & _) | (H3 & _ & -> & _)]].
    + lra.
    + reflexivity.
    + assert (lw / lh == 1) as E1 by (field_simplify_eq; lra).
      assert (fl (lw / lh) == 1) as E2.
      { rewrite <- fl_1. apply fl_compat; [| exact E1]. rewrite E1. lra. }
      rewrite <- Hrep at 2. apply fl_compat; [| rewrite E2; ring].
      rewrite E2. lra.
  - intros H1 H2.
    destruct Hc as [(_ & H3 & _) | [(H3 & H4 & _ & Hh) | (_ & _ & _ & ->)]].
    + lra.
    + apply Qle_antisym; [exact H4 |].
      assert (1 <= lh / lw) as Hq by (apply Qle_shift_div_l; lra).
      assert (1 <= fl (lh / lw)) as Hr.
      { rewrite <- fl_1. apply fl_le; lra. }
      assert (0 <= (fl (lh / lw) - 1) * m) as Hp
        by (apply Qmult_le_0_compat; lra).
      rewrite Hh, <- Hrep at 1. apply fl_le; lra.
    + reflexivity.
Qed.

Lemma longer_side_is_clamped_witness :
  exists w h m : Q,
    Rounded.logo_scale 400 300 100 = Some (w, h) /\
    div 400 5 = Some m /\
    0 < w <= m /\ 0 < h <= m /\
    (300 <= m -> 100 <= m -> w = 300 /\ h = 100) /\
    (100 <= 300 -> m < 300 -> w == m) /\
    (300 <= 100 -> m < 100 -> h == m).
Proof.
  apply (longer_side_is_clamped 400 300 100); split; unfold Qle; simpl; lia.
Defined.

End RoundedFacts.


(** ** Facts about the primitive doubles *)

Module DoublesFacts.
Import PrimFloat Doubles.

(** The operations of [Rounded] are those of the machine on 200 sampled
    pairs of operands, and on operands whose results fall half way between
    two doubles. *)
Lemma rounded_operations_match :
  same_on_samples 200 12345 = true /\
  forallb (fun '(a, b) => same_operations a b)
          [(of_scaled 4503599627370497 (-52), of_scaled 4503599627370497 (-52));
           (of_scaled 9007199254740991 (-53), of_Z 3);
           (of_Z 1, of_scaled 9007199254740993 0);
           (of_Z 9007199254740991, of_scaled 1 (-1));
           (of_scaled 6755399441055744 0, of_scaled 6755399441055745 (-52))]
    = true.
Proof. vm_compute. split; reflexivity. Qed.

(** The two embeddings of lines 43-59 give the same origin and the same
    sizes: for the width 400 of the handler and every logo up to 32 by 32,
    for other widths and every logo up to 8 by 8, and for some larger
    sizes. *)
Lemma rounded_matches_doubles :
  same_placements 400 32 = true /\
  forallb (fun width => same_placements width 8)
          [2; 5; 37; 256; 401; 1000]%Z = true /\
  forallb (fun '(lw, lh) => same_placement 400 lw lh)
          [(81, 83); (200, 200); (300, 100); (100, 300); (640, 480);
           (1920, 1080); (1080, 1920); (4032, 3024); (1, 9007199254740992);
           (9007199254740992, 1); (9007199254740991, 9007199254740992)]%Z = true.
Proof. vm_compute. repeat split; reflexivity. Qed.

(** C1. The scaling of the code is two clamps in sequence.  With
    [max = width / 5]: when the natural width exceeds [max] the width
    becomes [max] and the height [(lh / lw) * max]; then, when the height
    this left exceeds [max], the height becomes [max] and the width
    [(lw / lh) * max], from the natural sizes.  The result differs from the
    one got by scaling the sizes of the first step (81 by 83 on a canvas of
    width 400), and a 200 by 200 logo on a canvas of width 400 is drawn 80
    by 80 at (160, 160). *)
Theorem C1_sequential_clamps_in_doubles :
  (forall width lw lh : float,
     let max := (width / 5)%float in
     let scaledH := if gt lw max then (lh / lw * max)%float else lh in
     logo_scale width lw lh =
       if gt scaledH max then ((lw / lh * max)%float, max)
       else if gt lw max then (max, scaledH)
       else (lw, lh)) /\
  logo_scale 400 81 83 <> rescale_step3 400 81 83 /\
  logo_placement 400 200 200 = Placement (Some 160%Z) (Some 160%Z) 80 80.
Proof.
  split; [| split].
  - intros width lw lh. cbv zeta. unfold logo_scale.
    destruct (gt lw (width / 5)).
    + destruct (gt (lh / lw * (width / 5)) (width / 5)); reflexivity.
    + destruct (gt lh (width / 5)); reflexivity.
  - intros H. apply (f_equal (fun p => value (fst p))) in H.
    vm_compute in H. discriminate.
  - vm_compute. reflexivity.
Qed.

(** C1, as the specification words it, fails in binary64, where the order
    of the operations matters: for a 300 by 100 logo on a canvas of width
    400 the code computes the height [(100 / 300) * 80], which is
    [26.666666666666664], and [100 * (80 / 300)] is the next double,
    [26.666666666666668]. *)
Lemma C1_spec_order_differs :
  snd (logo_scale 400 300 100) = 0x1.aaaaaaaaaaaaap+4%float /\
  snd (spec_scale 400 300 100) = 0x1.aaaaaaaaaaaabp+4%float /\
  logo_scale 400 300 100 <> spec_scale 400 300 100.
Proof.
  split; [vm_compute; reflexivity |]. split; [vm_compute; reflexivity |].
  intros H. apply (f_equal (fun p => value (snd p))) in H.
  vm_compute in H. discriminate.
Qed.

(** C2, as the specification words it, fails: the aspect ratio is not kept
    exactly.  A 300 by 100 logo on a canvas of width 400 is drawn 80 wide
    and [26.666666666666664] high, and 80 over that height is not 3,
    neither as a rational nor as a double; the rounded embedding gives the
    same sizes. *)
Lemma C2_ratio_not_exact :
  let p := logo_placement 400 300 100 in
  exists scaledW scaledH : Q,
    value (logoWidthFinal p) = Some scaledW /\
    value (logoHeightFinal p) = Some scaledH /\
    ~ scaledW / scaledH == 300 / 100 /\
    (logoWidthFinal p / logoHeightFinal p)%float <> (300 / 100)%float /\
    exists q : Geometry.placement,
      Rounded.logo_placement 400 300 100 = Some q /\
      Geometry.logoWidthFinal q == scaledW /\
      Geometry.logoHeightFinal q == scaledH.
Proof.
  exists 80, (3752999689475413 # 140737488355328).
  split; [vm_compute; reflexivity |]. split; [vm_compute; reflexivity |].
  split; [intros H; vm_compute in H; discriminate |].
  split.
  - intros H. apply (f_equal value) in H. vm_compute in H. discriminate.
  - eexists. split; [vm_compute; reflexivity |].
    split; vm_compute; reflexivity.
Qed.

(** Why the canvas is taken at least 2 wide: on a canvas of width 1 a logo
    of 1 by [2 ^ 53] is scaled to a width below [2 ^ -54], the difference
    [1 - scaledW] rounds to 1, and the origin 1 puts the logo past the
    right edge. *)
Lemma narrow_canvas_overflows :
  let p := logo_placement 1 1 9007199254740992 in
  x p = Some 1%Z /\
  exists scaledW : Q,
    value (logoWidthFinal p) = Some scaledW /\
    0 < scaledW /\ ~ inject_Z 1 + scaledW <= 1.
Proof.
  split; [vm_compute; reflexivity |].
  eexists. split; [vm_compute; reflexivity |].
  split; [reflexivity |]. intros H. vm_compute in H. apply H. reflexivity.
Qed.

End DoublesFacts.

(** ** Facts about the server *)

Module ServerFacts.
Import Geometry Server Stages.

Section WithLib.
Context `{Lib}.

(** What a request without a usable [data] does to the world. *)
Lemma handle_request_falsy (req_body : gmap string jsval) (w : world) :
  truthy (field req_body "data") = false ->
  handle_request req_body w =
    set_trace (trace w ++ [EvSend 400 missing_field_body])
      (set_res (Response 400 [] (Some missing_field_body)) w).
Proof.
  intros Hf. unfold handle_request, generate_qr, generate_qr_try, try_catch.
  rewrite Hf. reflexivity.
Qed.

(** C4. Without a [data] field the answer is 400 with the missing-field
    body; nothing is rendered, composited or written: the only call that
    leaves the handler is the send, the file system and console are as
    before. *)
Theorem C4_missing_data (req_body : gmap string jsval) (w : world) :
  req_body !! "data" = None ->
  let w' := handle_request req_body w in
  res_status (res w') = 400%Z /\
  res_sent (res w') =
    Some (BodyJson (JObj [("error", JStr "Missing required field: data")])) /\
  trace w' = trace w ++
             [EvSend 400 (BodyJson (JObj [("error", JStr "Missing required field: data")]))] /\
  fs_files w' = fs_files w /\ fs_dirs w' = fs_dirs w /\ console w' = console w.
Proof.
  intros Hnone. cbv zeta.
  rewrite handle_request_falsy by (unfold field; rewrite Hnone; reflexivity).
  repeat split.
Qed.

(** C9. A [data] field holding a falsy value (the empty string, zero,
    [false], [null]) is handled as if it were missing: same final world,
    answer 400 with the missing-field body, no call to the QR encoder. *)
Theorem C9_falsy_data (req_body : gmap string jsval) (w : world) (v : jsval) :
  req_body !! "data" = Some v ->
  truthy v = false ->
  let w' := handle_request req_body w in
  w' = handle_request (delete "data" req_body) w /\
  res_status (res w') = 400%Z /\
  res_sent (res w') =
    Some (BodyJson (JObj [("error", JStr "Missing required field: data")])) /\
  trace w' = trace w ++
             [EvSend 400 (BodyJson (JObj [("error", JStr "Missing required field: data")]))] /\
  (truthy (JStr EmptyString) = false /\ truthy (JNum 0) = false /\
   truthy (JBool false) = false /\ truthy JNull = false).
Proof.
  intros Hv Hf. cbv zeta.
  rewrite handle_request_falsy by (unfold field; rewrite Hv; exact Hf).
  rewrite handle_request_falsy
    by (unfold field; rewrite lookup_delete_eq; reflexivity).
  repeat split.
Qed.

(** The two generation functions, run from a world [w]. *)
Lemma generateQRCodeWithoutLogo_run (data : jsval) (width : Q) (w : world) :
  generateQRCodeWithoutLogo data width w =
    let w1 := set_trace (trace w ++ [EvCreateCanvas width width;
                                     EvToCanvas data fixed_options]) w in
    match QRCode_toCanvas (createCanvas width width) data fixed_options with
    | Some cv => (w1, inr (canvas_toDataURL cv))
    | None => (w1, inl EncodingError)
    end.
Proof.
  unfold generateQRCodeWithoutLogo, new_canvas, toCanvas, bind, emit, ret, throw.
  simpl. fold fixed_options. unfold set_trace at 1 2. simpl.
  rewrite <- app_assoc. simpl.
  destruct (QRCode_toCanvas _ _ _); reflexivity.
Qed.

Lemma generateQRCodeWithLogo_run
    (data : jsval) (src : path) (width : Q) (w : world) :
  generateQRCodeWithLogo data src width w =
    let rendered := [EvCreateCanvas width width; EvToCanvas data fixed_options] in
    let oops (t : list event) (e : exn) :=
      (set_console (console w ++ [ConsoleError "Error generating QR code:" e])
         (set_trace (trace w ++ t) w), inl e) in
    match QRCode_toCanvas (createCanvas width width) data fixed_options with
    | None => oops rendered EncodingError
    | Some cv =>
        match read_image src w with
        | None => oops (rendered ++ [EvLoadImage src]) ImageLoadError
        | Some img =>
            let p := logo_placement width (img_width img) (img_height img) in
            (set_trace (trace w ++ rendered ++
                        [EvLoadImage src;
                         EvDrawImage (x p) (y p) (logoWidthFinal p) (logoHeightFinal p)]) w,
             inr (canvas_toDataURL
                    (ctx_drawImage cv img (x p) (y p)
                       (logoWidthFinal p) (logoHeightFinal p))))
        end
    end.
Proof.
  unfold generateQRCodeWithLogo, try_catch, new_canvas, toCanvas, loadImage,
    drawImage, console_error, bind, emit, ret, throw, read_image,
    set_trace, set_console.
  simpl. fold fixed_options.
  destruct (QRCode_toCanvas _ _ _) as [cv |]; simpl.
  - destruct (fs_files w !! (cwd w ++ src) ≫= decodeImage) as [img |]; simpl;
      repeat rewrite <- app_assoc; reflexivity.
  - repeat rewrite <- app_assoc. reflexivity.
Qed.

(** What [ctx.drawImage] receives: the placement computed from the natural
    size of the decoded logo. *)
Lemma generateQRCodeWithLogo_draws
    (data : jsval) (src : path) (width : Q) (w : world)
    (cv : canvas) (img : image) :
  QRCode_toCanvas (createCanvas width width) data fixed_options = Some cv ->
  read_image src w = Some img ->
  let p := logo_placement width (img_width img) (img_height img) in
  trace (fst (generateQRCodeWithLogo data src width w)) =
    trace w ++ [EvCreateCanvas width width; EvToCanvas data fixed_options;
                EvLoadImage src;
                EvDrawImage (x p) (y p) (logoWidthFinal p) (logoHeightFinal p)].
Proof.
  intros Hcv Himg. rewrite generateQRCodeWithLogo_run. cbv zeta.
  rewrite Hcv, Himg. reflexivity.
Qed.

(** The [try] block of a request with a usable [data] is generation
    followed by persistence. *)
Lemma generate_qr_try_stages (req_body : gmap string jsval) :
  truthy (field req_body "data") = true ->
  generate_qr_try req_body =
    bind (generate (field req_body "data")
                   (field_default req_body "enableLogo" (JBool true)))
         (fun url => save_and_send (decode_data_url url)).
Proof.
  intros Ht. unfold generate_qr_try. rewrite Ht. reflexivity.
Qed.

(** Generation touches only the trace and the console.  It renders, then,
    when the logo is enabled, loads and draws the logo; a failure cuts the
    sequence short. *)
Lemma generate_frame (data enableLogo : jsval) (w w1 : world) (r : exn + string) :
  generate data enableLogo w = (w1, r) ->
  same_machine w w1 /\
  exists t,
    trace w1 = trace w ++ [EvCreateCanvas 400 400; EvToCanvas data fixed_options] ++ t /\
    match r with
    | inr _ =>
        (truthy enableLogo = false /\ t = []) \/
        (truthy enableLogo = true /\
         exists img,
           read_image logo_path w = Some img /\
           let p := logo_placement 400 (img_width img) (img_height img) in
           t = [EvLoadImage logo_path;
                EvDrawImage (x p) (y p) (logoWidthFinal p) (logoHeightFinal p)])
    | inl _ => t = [] \/ t = [EvLoadImage logo_path]
    end.
Proof.
  unfold generate, same_machine.
  destruct (truthy enableLogo).
  - rewrite generateQRCodeWithLogo_run. cbv zeta.
    destruct (QRCode_toCanvas _ _ _); [destruct (read_image logo_path w) eqn:Himg |];
      intros [= <- <-]; simpl; (split; [auto 10 |]).
    + eexists; split; [reflexivity |]. right. split; [reflexivity |].
      eexists; split; reflexivity.
    + eexists; split; [reflexivity |]. right. reflexivity.
    + exists []. auto.
  - rewrite generateQRCodeWithoutLogo_run. cbv zeta.
    destruct (QRCode_toCanvas _ _ _); intros [= <- <-]; simpl;
      (split; [auto 10 |]); exists []; auto.
Qed.

Lemma handle_request_truthy (req_body : gmap string jsval) (w : world) :
  truthy (field req_body "data") = true ->
  handle_request req_body w =
    match generate (field req_body "data")
                   (field_default req_body "enableLogo" (JBool true))
                   (set_res fresh_response w) with
    | (w1, inl e) => failed e w1
    | (w1, inr url) =>
        match save_and_send (decode_data_url url) w1 with
        | (w2, inl e) => failed e w2
        | (w2, inr _) => w2
        end
    end.
Proof.
  intros Ht. unfold handle_request, generate_qr, try_catch.
  rewrite (generate_qr_try_stages req_body Ht). unfold bind.
  destruct (generate _ _ _) as [w1 [e | url]]; [reflexivity |].
  destruct (save_and_send _ _) as [w2 [e | []]]; reflexivity.
Qed.

Lemma path_parent_join (dir : path) (name : string) :
  path_parent (path_join dir name) = dir.
Proof. apply removelast_last. Qed.

(** Persistence, when it succeeds. *)
Lemma save_and_send_ok (buf : bytes) (w w' : world) :
  save_and_send buf w = (w', inr tt) ->
  fs_files w' = <[output_path w := buf]> (fs_files w) /\
  output_dir w ∈ fs_dirs w' /\
  (fs_exists (output_dir w) w = false -> fs_dirs w' = {[output_dir w]} ∪ fs_dirs w) /\
  res w' = Response (res_status (res w))
             (res_headers (res w) ++
              [("Content-Type", "image/png");
               ("Content-Disposition", "inline; filename=qr-code.png")])
             (Some (BodyBuffer buf)) /\
  exists t,
    ((fs_exists (output_dir w) w = true /\ t = []) \/
     (fs_exists (output_dir w) w = false /\ t = [EvMkdir (output_dir w)])) /\
    trace w' = trace w ++ t ++ [EvWriteFile (output_path w) buf;
                                EvSend (res_status (res w)) (BodyBuffer buf)].
Proof.
  unfold save_and_send, get_dirname, fs_existsSync, fs_mkdirSync, fs_writeFileSync,
    Date_now, console_log, res_setHeader, res_send, res_end, bind, emit, ret.
  fold (output_dir w).
  destruct (fs_exists (output_dir w) w) eqn:Hex; cbn [negb].
  - destruct (write_allowed _ _) eqn:Hwa; cbn; [| intros [=]].
    intros [= <-]. cbn.
    apply andb_prop in Hwa as [Hwa _]. apply andb_prop in Hwa as [Hp _].
    apply bool_decide_eq_true in Hp. cbn in Hp.
    pose proof (path_parent_join (output_dir w)
                  ("qr-code-" +:+ pretty (clock w) +:+ ".png")) as Hpar.
    rewrite Hpar in Hp.
    repeat split; auto; [congruence | now rewrite <- app_assoc |].
    exists []. split; [left; split; reflexivity |]. rewrite <- app_assoc. reflexivity.
  - destruct (mkdir_allowed _ _) eqn:Hmk; cbn; [| intros [=]].
    destruct (write_allowed _ _) eqn:Hwa; cbn; [| intros [=]].
    intros [= <-]. cbn.
    repeat split; auto; [set_solver | now rewrite <- app_assoc |].
    exists [EvMkdir (output_dir w)]. split; [right; split; reflexivity |].
    repeat rewrite <- app_assoc. reflexivity.
Qed.

(** Persistence, when it fails: nothing was sent and no file was written. *)
Lemma save_and_send_fail (buf : bytes) (w w' : world) (e : exn) :
  save_and_send buf w = (w', inl e) ->
  res w' = res w /\ fs_files w' = fs_files w /\ console w' = console w /\
  exists t,
    trace w' = trace w ++ t /\
    (t = [EvWriteFile (output_path w) buf] \/ t = [EvMkdir (output_dir w)] \/
     t = [EvMkdir (output_dir w); EvWriteFile (output_path w) buf]).
Proof.
  unfold save_and_send, get_dirname, fs_existsSync, fs_mkdirSync, fs_writeFileSync,
    Date_now, console_log, res_setHeader, res_send, res_end, bind, emit, ret.
  fold (output_dir w).
  destruct (fs_exists (output_dir w) w) eqn:Hex; cbn [negb].
  - destruct (write_allowed _ _); cbn; intros [= <- <-]. cbn.
    repeat split; auto. eexists; split; [reflexivity |]. left. reflexivity.
  - destruct (mkdir_allowed _ _) eqn:Hmk; cbn.
    + destruct (write_allowed _ _); cbn; intros [= <- <-]. cbn.
      repeat split; auto. eexists; split; [symmetry; apply app_assoc |].
      right; right. reflexivity.
    + intros [= <- <-]. cbn. repeat split; auto.
      eexists; split; [reflexivity |]. right; left. reflexivity.
Qed.

(** A refused output file makes persistence fail. *)
Lemma save_and_send_denied (buf : bytes) (w : world) :
  output_path w ∈ fs_denied w ->
  exists w' e, save_and_send buf w = (w', inl e).
Proof.
  intros Hden.
  assert (forall w3, fs_denied w3 = fs_denied w ->
            write_allowed (output_path w) w3 = false) as Hno.
  { intros w3 H3. unfold write_allowed. rewrite H3.
    rewrite (bool_decide_eq_true_2 _ Hden). now rewrite andb_false_r. }
  unfold save_and_send, get_dirname, fs_existsSync, fs_mkdirSync,
    fs_writeFileSync, Date_now, bind, emit, ret.
  fold (output_dir w).
  destruct (fs_exists (output_dir w) w); cbn [negb].
  - cbn [clock set_trace]. fold (output_path w).
    rewrite Hno by reflexivity. eauto.
  - destruct (mkdir_allowed _ _); cbn [clock set_trace set_fs]; [| eauto].
    fold (output_path w). rewrite Hno by reflexivity. eauto.
Qed.

(** Every request: what is appended to the trace renders with the fixed
    options only, attempts each stage at most once, and answers once. *)
Lemma handle_request_trace (req_body : gmap string jsval) (w : world) :
  exists t,
    trace (handle_request req_body w) = trace w ++ t /\
    Forall fixed_render t /\
    (calls is_render t <= 1)%nat /\ (calls is_load t <= 1)%nat /\
    (calls is_write t <= 1)%nat /\ calls is_send t = 1%nat.
Proof.
  destruct (truthy (field req_body "data")) eqn:Ht.
  - rewrite (handle_request_truthy req_body w Ht).
    destruct (generate _ _ _) as [w1 r] eqn:Hg.
    apply generate_frame in Hg as (_ & tg & Htg & Hshape). cbn in Htg.
    assert (Forall fixed_render tg /\ calls is_render tg = 0%nat /\
            (calls is_load tg <= 1)%nat /\ calls is_write tg = 0%nat /\
            calls is_send tg = 0%nat) as (Fg & Rg & Lg & Wg & Sg).
    { destruct r as [e | url].
      - destruct Hshape as [-> | ->]; cbn; repeat split; repeat constructor.
      - destruct Hshape as [[_ ->] | (_ & img & _ & ->)]; cbn;
          repeat split; repeat constructor. }
    assert (forall ts,
      Forall fixed_render ts -> calls is_render ts = 0%nat ->
      calls is_load ts = 0%nat -> (calls is_write ts <= 1)%nat ->
      calls is_send ts = 1%nat ->
      exists t,
        trace w1 ++ ts = trace w ++ t /\ Forall fixed_render t /\
        (calls is_render t <= 1)%nat /\ (calls is_load t <= 1)%nat /\
        (calls is_write t <= 1)%nat /\ calls is_send t = 1%nat) as Hfin.
    { intros ts Fs Rs Ls Ws Ss.
      exists ([EvCreateCanvas 400 400;
               EvToCanvas (field req_body "data") fixed_options] ++ tg ++ ts).
      rewrite Htg. repeat rewrite <- app_assoc.
      split; [reflexivity |].
      split.
      { apply Forall_app; split; [repeat constructor; reflexivity |].
        apply Forall_app; split; assumption. }
      unfold calls in *. repeat rewrite List.filter_app.
      repeat rewrite length_app. cbn. lia. }
    destruct r as [e | url].
    + apply (Hfin [EvSend 500 failed_body]); cbn; auto. repeat constructor.
    + destruct (save_and_send _ _) as [w2 [e | []]] eqn:Hs.
      * apply save_and_send_fail in Hs as (_ & _ & _ & ts & Hts & Hsh).
        cbn [failed set_trace trace]. cbn. rewrite Hts, <- app_assoc.
        apply Hfin; destruct Hsh as [-> | [-> | ->]]; cbn; auto;
          repeat constructor.
      * apply save_and_send_ok in Hs as (_ & _ & _ & _ & tm & Htm & ->).
        apply Hfin; destruct Htm as [[_ ->] | [_ ->]]; cbn; auto;
          repeat constructor.
  - rewrite (handle_request_falsy req_body w Ht).
    exists [EvSend 400 missing_field_body]. cbn.
    repeat split; auto. repeat constructor.
Qed.

(** C6. Both generation functions pass level H, margin 1, black on white
    to the encoder, whatever the data and the width; and whatever the
    request, the handler creates canvases of side 400 only and renders with
    these options only. *)
Theorem C6_fixed_render_options
    (data : jsval) (src : path) (width : Q)
    (req_body : gmap string jsval) (w : world) :
  (exists t,
     trace (fst (generateQRCodeWithLogo data src width w)) =
       trace w ++ [EvCreateCanvas width width;
                   EvToCanvas data (QrOptions EcH 1 "#000000" "#ffffff")] ++ t /\
     calls is_render t = 0%nat) /\
  trace (fst (generateQRCodeWithoutLogo data width w)) =
    trace w ++ [EvCreateCanvas width width;
                EvToCanvas data (QrOptions EcH 1 "#000000" "#ffffff")] /\
  (exists t,
     trace (handle_request req_body w) = trace w ++ t /\
     Forall (fun ev =>
               match ev with
               | EvToCanvas _ opts => opts = QrOptions EcH 1 "#000000" "#ffffff"
               | EvCreateCanvas a b => a = 400 /\ b = 400
               | _ => True
               end) t /\
     (truthy (field req_body "data") = true -> calls is_render t = 1%nat)).
Proof.
  split; [| split].
  - rewrite generateQRCodeWithLogo_run. cbv zeta.
    destruct (QRCode_toCanvas _ _ _); [destruct (read_image _ _) |]; cbn;
      eexists; split; try reflexivity; reflexivity.
  - rewrite generateQRCodeWithoutLogo_run. cbv zeta.
    destruct (QRCode_toCanvas _ _ _); reflexivity.
  - destruct (handle_request_trace req_body w) as (t & Ht & Hf & Hr & _).
    exists t. split; [exact Ht |]. split; [exact Hf |].
    intros Htruthy. rewrite (handle_request_truthy req_body w Htruthy) in Ht.
    destruct (generate _ _ _) as [w1 r] eqn:Hg.
    apply generate_frame in Hg as (_ & tg & Htg & _). cbn in Htg.
    assert (exists t', trace w ++ t =
              trace w ++ [EvCreateCanvas 400 400;
                          EvToCanvas (field req_body "data") fixed_options] ++ t')
      as [t' Ht'].
    { rewrite <- Ht. destruct r as [e | url].
      - cbn. rewrite Htg, <- app_assoc. eauto.
      - destruct (save_and_send _ _) as [w2 [e | []]] eqn:Hs.
        + apply save_and_send_fail in Hs as (_ & _ & _ & ts & Hts & _).
          cbn. rewrite Hts, Htg. repeat rewrite <- app_assoc. eauto.
        + apply save_and_send_ok in Hs as (_ & _ & _ & _ & tm & _ & ->).
          rewrite Htg. repeat rewrite <- app_assoc. eauto. }
    apply app_inv_head in Ht'. subst t. cbn in Hr |- *.
    unfold calls in *. cbn in Hr |- *. lia.
Qed.

(** C5. A request with a usable [data] whose [try] block throws, at any
    stage, is answered 500 with the fixed body; an encoder failure, a logo
    that cannot be loaded and a refused write are such cases.  When the
    logo cannot be loaded the encoder has been called once and is not
    called again: there is no second rendering without the logo.  No stage
    is attempted twice. *)
Theorem C5_failures_collapse (req_body : gmap string jsval) (w : world) :
  truthy (field req_body "data") = true ->
  let data := field req_body "data" in
  let enableLogo := field_default req_body "enableLogo" (JBool true) in
  let opts := QrOptions EcH 1 "#000000" "#ffffff" in
  let body500 := BodyJson (JObj [("error", JStr "Failed to generate QR code")]) in
  let w' := handle_request req_body w in
  let collapsed :=
    res_status (res w') = 500%Z /\ res_sent (res w') = Some body500 in
  (forall w1 e,
     generate_qr_try req_body (set_res fresh_response w) = (w1, inl e) ->
     collapsed /\ trace w' = trace w1 ++ [EvSend 500 body500]) /\
  (QRCode_toCanvas (createCanvas 400 400) data opts = None ->
   collapsed /\
   trace w' = trace w ++ [EvCreateCanvas 400 400; EvToCanvas data opts;
                          EvSend 500 body500]) /\
  (truthy enableLogo = true ->
   is_Some (QRCode_toCanvas (createCanvas 400 400) data opts) ->
   read_image ["src"; "images"; "logo1.jpg"] w = None ->
   collapsed /\
   trace w' = trace w ++ [EvCreateCanvas 400 400; EvToCanvas data opts;
                          EvLoadImage ["src"; "images"; "logo1.jpg"];
                          EvSend 500 body500]) /\
  (output_path w ∈ fs_denied w -> collapsed) /\
  (exists t,
     trace w' = trace w ++ t /\
     (calls is_render t <= 1)%nat /\ (calls is_load t <= 1)%nat /\
     (calls is_write t <= 1)%nat /\ calls is_send t = 1%nat).
Proof.
  intros Ht. cbv zeta.
  fold fixed_options failed_body logo_path.
  pose proof (handle_request_truthy req_body w Ht) as Hrun.
  split; [| split; [| split; [| split]]].
  - intros w1 e Htry.
    rewrite (generate_qr_try_stages req_body Ht) in Htry. unfold bind in Htry.
    destruct (generate _ _ _) as [w0 [e0 | url]] eqn:Hg.
    + injection Htry as <- <-. rewrite Hrun. cbn. auto.
    + destruct (save_and_send _ _) as [w2 [e2 | []]] eqn:Hs; [| discriminate].
      injection Htry as <- <-. rewrite Hrun. cbn. auto.
  - intros Henc. rewrite Hrun. unfold generate.
    destruct (truthy (field_default _ _ _)).
    + rewrite generateQRCodeWithLogo_run. cbv zeta. rewrite Henc. cbn.
      rewrite <- app_assoc. auto.
    + rewrite generateQRCodeWithoutLogo_run. cbv zeta. rewrite Henc. cbn.
      rewrite <- app_assoc. auto.
  - intros Hlogo [cv Hcv] Hread. rewrite Hrun. unfold generate. rewrite Hlogo.
    rewrite generateQRCodeWithLogo_run. cbv zeta. rewrite Hcv.
    change (read_image logo_path (set_res fresh_response w))
      with (read_image logo_path w).
    rewrite Hread. cbn. rewrite <- app_assoc. auto.
  - intros Hden. rewrite Hrun.
    destruct (generate _ _ _) as [w1 [e | url]] eqn:Hg.
    + cbn. auto.
    + apply generate_frame in Hg as (Hsame & _).
      destruct Hsame as (_ & _ & Hdn & _ & Hdir & Hclk & _).
      cbn in Hdn, Hdir, Hclk.
      assert (output_path w1 ∈ fs_denied w1) as Hden1
        by (unfold output_path, output_dir; rewrite Hdn, Hdir, Hclk; exact Hden).
      destruct (save_and_send_denied (decode_data_url url) w1 Hden1)
        as (w2 & e & Hs).
      rewrite Hs. cbn. auto.
  - destruct (handle_request_trace req_body w) as (t & Htr & _ & Hc).
    exists t. auto.
Qed.

(** C7, as the code has it.  An image that is sent was first written to
    the [output] directory next to [server.js] (its [__dirname]), under
    the name [qr-code-<Date.now()>.png]; the directory is created when
    absent.  The calls of such a request are, in this order: rendering,
    loading and drawing the logo when it is enabled, [mkdirSync] when the
    directory is absent, [writeFileSync], and last the send. *)
Theorem C7_saved_before_sent
    (req_body : gmap string jsval) (w : world) (buf : bytes) :
  res_sent (res (handle_request req_body w)) = Some (BodyBuffer buf) ->
  let w' := handle_request req_body w in
  let data := field req_body "data" in
  let enableLogo := field_default req_body "enableLogo" (JBool true) in
  let logoPath := ["src"; "images"; "logo1.jpg"] in
  let outputDir := dirname w ++ ["output"] in
  let outputPath :=
    outputDir ++ [("qr-code-" +:+ pretty (clock w) +:+ ".png")%string] in
  res_status (res w') = 200%Z /\
  fs_files w' !! outputPath = Some buf /\
  outputDir ∈ fs_dirs w' /\
  exists tg tm,
    ((truthy enableLogo = false /\ tg = []) \/
     (truthy enableLogo = true /\
      exists img,
        read_image logoPath w = Some img /\
        let p := logo_placement 400 (img_width img) (img_height img) in
        tg = [EvLoadImage logoPath;
              EvDrawImage (x p) (y p) (logoWidthFinal p) (logoHeightFinal p)])) /\
    ((fs_exists outputDir w = true /\ tm = []) \/
     (fs_exists outputDir w = false /\ tm = [EvMkdir outputDir])) /\
    trace w' =
      trace w ++
      [EvCreateCanvas 400 400;
       EvToCanvas data (QrOptions EcH 1 "#000000" "#ffffff")] ++
      tg ++ tm ++ [EvWriteFile outputPath buf; EvSend 200 (BodyBuffer buf)].
Proof.
  cbv zeta. intros Hsent.
  destruct (truthy (field req_body "data")) eqn:Ht.
  2:{ rewrite (handle_request_falsy req_body w Ht) in Hsent. discriminate. }
  rewrite (handle_request_truthy req_body w Ht) in Hsent |- *.
  destruct (generate _ _ _) as [w1 [e | url]] eqn:Hg; [discriminate |].
  apply generate_frame in Hg as (Hsame & tg & Htg & Hshape).
  destruct Hsame as (Hf & Hd & _ & _ & Hdir & Hclk & Hres).
  cbn in Hf, Hd, Hdir, Hclk, Hres, Htg.
  change (read_image logo_path (set_res fresh_response w))
    with (read_image logo_path w) in Hshape.
  destruct (save_and_send _ _) as [w2 [e | []]] eqn:Hs; [discriminate |].
  apply save_and_send_ok in Hs as (Hfiles & Hin & Hmk & Hr & tm & Htm & Htrace).
  assert (output_dir w1 = dirname w ++ ["output"]) as Hod
    by (unfold output_dir, path_join; now rewrite Hdir).
  assert (output_path w1 =
          (dirname w ++ ["output"]) ++
          [("qr-code-" +:+ pretty (clock w) +:+ ".png")%string]) as Hop
    by (unfold output_path; rewrite Hod, Hclk; reflexivity).
  assert (fs_exists (dirname w ++ ["output"]) w1 =
          fs_exists (dirname w ++ ["output"]) w) as Hex
    by (unfold fs_exists; now rewrite Hf, Hd).
  rewrite Hr in Hsent. cbn [res_sent] in Hsent. injection Hsent as Hbuf.
  rewrite Hod in Hin, Htm. rewrite Hex in Htm.
  rewrite Hop, Hres, Hbuf in Htrace.
  rewrite Hop, Hbuf in Hfiles. rewrite Hres in Hr.
  change (res_status fresh_response) with 200%Z in Hr, Htrace.
  split; [rewrite Hr; reflexivity |].
  split; [rewrite Hfiles; apply lookup_insert_eq |].
  split; [exact Hin |].
  exists tg, tm.
  split; [exact Hshape |]. split; [exact Htm |].
  rewrite Htrace, Htg. repeat rewrite <- app_assoc. reflexivity.
Qed.

End WithLib.

(** *** The statements above, run on the concrete library and world *)

Import Demo.

Lemma C4_missing_data_witness :
  let w' := @handle_request demo_lib ∅ demo_world in
  res_status (res w') = 400%Z /\
  res_sent (res w') =
    Some (BodyJson (JObj [("error", JStr "Missing required field: data")])) /\
  trace w' = trace demo_world ++
             [EvSend 400 (BodyJson (JObj [("error", JStr "Missing required field: data")]))] /\
  fs_files w' = fs_files demo_world /\ fs_dirs w' = fs_dirs demo_world /\
  console w' = console demo_world.
Proof. apply (@C4_missing_data demo_lib ∅ demo_world). reflexivity. Defined.

Lemma C9_falsy_data_witness :
  let req_body : gmap string jsval := {[ "data" := JStr EmptyString ]} in
  let w' := @handle_request demo_lib req_body demo_world in
  w' = @handle_request demo_lib (delete "data" req_body) demo_world /\
  res_status (res w') = 400%Z /\
  res_sent (res w') =
    Some (BodyJson (JObj [("error", JStr "Missing required field: data")])) /\
  trace w' = trace demo_world ++
             [EvSend 400 (BodyJson (JObj [("error", JStr "Missing required field: data")]))] /\
  (truthy (JStr EmptyString) = false /\ truthy (JNum 0) = false /\
   truthy (JBool false) = false /\ truthy JNull = false).
Proof.
  apply (@C9_falsy_data demo_lib {[ "data" := JStr EmptyString ]} demo_world
           (JStr EmptyString)); reflexivity.
Defined.

Lemma C5_failures_collapse_witness :
  truthy (field (hello_body true) "data") = true /\
  let w' := @handle_request demo_lib (hello_body true) no_logo_world in
  (res_status (res w') = 500%Z /\
   res_sent (res w') =
     Some (BodyJson (JObj [("error", JStr "Failed to generate QR code")]))) /\
  trace w' =
    trace no_logo_world ++
    [EvCreateCanvas 400 400;
     EvToCanvas (field (hello_body true) "data") (QrOptions EcH 1 "#000000" "#ffffff");
     EvLoadImage ["src"; "images"; "logo1.jpg"];
     EvSend 500 (BodyJson (JObj [("error", JStr "Failed to generate QR code")]))].
Proof.
  split; [reflexivity |].
  apply (@C5_failures_collapse demo_lib (hello_body true) no_logo_world eq_refl).
  - reflexivity.
  - eexists. reflexivity.
  - reflexivity.
Defined.

Lemma C7_saved_before_sent_witness :
  let buf := String.list_byte_of_string "cXIrbG9nbw==" in
  let w' := @handle_request demo_lib (hello_body true) demo_world in
  let outputDir := ["app"; "src"; "output"] in
  let outputPath := ["app"; "src"; "output"; "qr-code-1700000000000.png"] in
  res_sent (res w') = Some (BodyBuffer buf) /\
  res_status (res w') = 200%Z /\
  fs_files w' !! outputPath = Some buf /\
  outputDir ∈ fs_dirs w' /\
  exists tg tm,
    trace w' =
      [EvCreateCanvas 400 400;
       EvToCanvas (JStr "hello") (QrOptions EcH 1 "#000000" "#ffffff")] ++
      tg ++ tm ++ [EvWriteFile outputPath buf; EvSend 200 (BodyBuffer buf)].
Proof.
  assert (res_sent (res (@handle_request demo_lib (hello_body true) demo_world)) =
          Some (BodyBuffer (String.list_byte_of_string "cXIrbG9nbw=="))) as Hsent
    by (vm_compute; reflexivity).
  split; [exact Hsent |].
  destruct (@C7_saved_before_sent demo_lib (hello_body true) demo_world _ Hsent)
    as (Hstatus & Hfile & Hdir & tg & tm & _ & _ & Htrace).
  split; [exact Hstatus |]. split; [exact Hfile |]. split; [exact Hdir |].
  exists tg, tm. exact Htrace.
Defined.

(** C7, as the specification words it, fails: started in [/app] as
    [node src/server.js], the server answers 200 and has written
    [/app/src/output/qr-code-1700000000000.png]; there is no [output]
    directory and no such file under the working directory [/app]. *)
Lemma C7_output_not_under_cwd :
  let w' := @handle_request demo_lib (hello_body true) demo_world in
  let name := ("qr-code-" +:+ pretty (clock demo_world) +:+ ".png")%string in
  cwd demo_world = ["app"] /\
  res_status (res w') = 200%Z /\
  is_Some (res_sent (res w')) /\
  fs_files w' !! (cwd demo_world ++ ["output"; name]) = None /\
  ((cwd demo_world ++ ["output"]) ∉ fs_dirs w') /\
  is_Some (fs_files w' !! (dirname demo_world ++ ["output"; name])) /\
  (dirname demo_world ++ ["output"]) ∈ fs_dirs w'.
Proof.
  cbv zeta.
  split; [reflexivity |].
  split; [reflexivity |].
  split; [vm_compute; eexists; reflexivity |].
  split; [vm_compute; reflexivity |].
  split; [apply (bool_decide_unpack _); vm_compute; exact I |].
  split; [vm_compute; eexists; reflexivity |].
  apply (bool_decide_unpack _). vm_compute. exact I.
Qed.

End ServerFacts.

(** ** More about the logo geometry *)

Module GeometryMore.
Import Geometry GeometryFacts.

(** The clamped sizes are positive, at most one fifth of the width, and in
    the proportion of the natural sizes. *)
Lemma logo_scale_bounds (width lw lh : Q) :
  0 < width -> 0 < lw -> 0 < lh ->
  let w := fst (logo_scale width lw lh) in
  let h := snd (logo_scale width lw lh) in
  0 < w /\ w <= width / 5 /\ 0 < h /\ h <= width / 5 /\
  w <= lw /\ h <= lh /\ w * lh == h * lw.
Proof.
  intros Hwidth Hlw Hlh.
  pose proof (logo_scale_cases width lw lh Hwidth) as Hc. cbv zeta in Hc |- *.
  destruct (logo_scale width lw lh) as [w h]. simpl.
  assert (0 < width / 5) as Hm by (apply Qlt_shift_div_l; lra).
  destruct Hc as [(H1 & H2 & -> & ->) | [(H1 & H2 & -> & ->) | (H0 & H1 & H2 & -> & ->)]].
  - repeat split; try lra.
  - assert (0 < lh / lw) as Hq by (apply Qlt_shift_div_l; lra).
    assert (lh / lw <= 1) as Hq1 by (apply Qle_shift_div_r; lra).
    assert (lh / lw * lw == lh) as Hq2 by (field; lra).
    repeat split; try nra; try lra.
  - assert (0 < lw / lh) as Hq by (apply Qlt_shift_div_l; lra).
    assert (lw / lh <= 1) as Hq1.
    { apply Qle_shift_div_r; [lra |].
      destruct (Qlt_le_dec (width / 5) lw) as [Hgt | Hle]; [specialize (H2 Hgt) |]; lra. }
    assert (lw / lh * lh == lw) as Hq2 by (field; lra).
    repeat split; try nra; try lra.
Qed.

(** X2. Scaling is idempotent: the clamped sizes are left as they are when
    they are scaled again for the same width. *)
Theorem logo_scale_idempotent (width lw lh : Q) :
  0 < width -> 0 < lw -> 0 < lh ->
  logo_scale width (fst (logo_scale width lw lh)) (snd (logo_scale width lw lh)) =
    logo_scale width lw lh.
Proof.
  intros Hwidth Hlw Hlh.
  pose proof (logo_scale_bounds width lw lh Hwidth Hlw Hlh) as Hb.
  cbv zeta in Hb. destruct Hb as (_ & Hw5 & _ & Hh5 & _).
  rewrite (logo_scale_small width _ _ Hw5 Hh5).
  destruct (logo_scale width lw lh); reflexivity.
Qed.

Lemma logo_scale_idempotent_witness :
  logo_scale 400 (fst (logo_scale 400 100 300)) (snd (logo_scale 400 100 300)) =
    logo_scale 400 100 300.
Proof. apply (logo_scale_idempotent 400 100 300); reflexivity. Defined.

Lemma Math_round_compat (a b : Q) : a == b -> Math_round a = Math_round b.
Proof. intros Hab. unfold Math_round. now rewrite Hab. Qed.

Lemma logo_scale_transpose (width lw lh : Q) :
  0 < width -> 0 < lw -> 0 < lh ->
  fst (logo_scale width lh lw) == snd (logo_scale width lw lh) /\
  snd (logo_scale width lh lw) == fst (logo_scale width lw lh).
Proof.
  intros Hwidth Hlw Hlh.
  pose proof (logo_scale_cases width lw lh Hwidth) as Hc.
  pose proof (logo_scale_cases width lh lw Hwidth) as Hd.
  cbv zeta in Hc, Hd.
  destruct (logo_scale width lw lh) as [w h].
  destruct (logo_scale width lh lw) as [w' h']. simpl.
  assert (0 < width / 5) as Hm by (apply Qlt_shift_div_l; lra).
  assert (forall a b : Q, 0 < a -> a == b -> a / b * (width / 5) == width / 5)
    as Hsame by (intros a b Ha Hab; rewrite Hab; field; lra).
  destruct Hc as [(H1 & H2 & -> & ->) | [(H1 & H2 & -> & ->) | (H0 & H1 & H2 & -> & ->)]];
    destruct Hd as [(G1 & G2 & -> & ->) | [(G1 & G2 & -> & ->) | (G0 & G1 & G2 & -> & ->)]];
    try lra; try (split; reflexivity).
  assert (lw == lh) as E by lra.
  split; [symmetry; apply Hsame; [lra | symmetry; exact E]
         | apply Hsame; [lra | exact E]].
Qed.

(** X3. Turning the logo by a quarter turn turns the placement with it:
    swapping the natural width and height swaps the clamped sizes and the
    two coordinates of the origin, although the code clamps the width
    first. *)
Theorem logo_placement_transpose (width lw lh : Q) :
  0 < width -> 0 < lw -> 0 < lh ->
  let p := logo_placement width lw lh in
  let q := logo_placement width lh lw in
  logoWidthFinal q == logoHeightFinal p /\
  logoHeightFinal q == logoWidthFinal p /\
  x q = y p /\ y q = x p.
Proof.
  intros Hwidth Hlw Hlh.
  destruct (logo_scale_transpose width lw lh Hwidth Hlw Hlh) as [Hw Hh].
  unfold logo_placement. cbv zeta.
  destruct (logo_scale width lw lh) as [w h].
  destruct (logo_scale width lh lw) as [w' h']. simpl in *.
  split; [exact Hw |]. split; [exact Hh |].
  split; apply Math_round_compat; [rewrite Hw | rewrite Hh]; reflexivity.
Qed.

Lemma logo_placement_transpose_witness :
  let p := logo_placement 400 300 100 in
  let q := logo_placement 400 100 300 in
  logoWidthFinal q == logoHeightFinal p /\
  logoHeightFinal q == logoWidthFinal p /\
  x q = y p /\ y q = x p.
Proof. apply (logo_placement_transpose 400 300 100); reflexivity. Defined.



End GeometryMore.

(** ** More about the server *)

Module ServerMore.
Import Geometry Server Stages Outcomes ServerFacts.

Set Warnings "-clear-no-such-hyp".

Section WithLib.
Context `{Lib}.

(** The value generation returns. *)
Lemma generate_result (data enableLogo : jsval) (w : world) :
  match generated_url data enableLogo w with
  | Some url => snd (generate data enableLogo w) = inr url
  | None => exists e, snd (generate data enableLogo w) = inl e /\
                      (e = EncodingError \/ e = ImageLoadError)
  end.
Proof.
  unfold generated_url, generate.
  destruct (truthy enableLogo).
  - rewrite generateQRCodeWithLogo_run. cbv zeta.
    destruct (QRCode_toCanvas _ _ _); [destruct (read_image logo_path w) |];
      cbn; eauto.
  - rewrite generateQRCodeWithoutLogo_run. cbv zeta.
    destruct (QRCode_toCanvas _ _ _); cbn; eauto.
Qed.

(** What generation writes on the console: one line when the function with
    the logo fails, nothing otherwise. *)
Lemma generate_console (data enableLogo : jsval) (w w1 : world) (r : exn + string) :
  generate data enableLogo w = (w1, r) ->
  match r with
  | inr _ => console w1 = console w
  | inl e =>
      (e = EncodingError \/ e = ImageLoadError) /\
      console w1 =
        console w ++
        (if truthy enableLogo
         then [ConsoleError "Error generating QR code:" e] else [])
  end.
Proof.
  unfold generate.
  destruct (truthy enableLogo).
  - rewrite generateQRCodeWithLogo_run. cbv zeta.
    destruct (QRCode_toCanvas _ _ _); [destruct (read_image logo_path w) |];
      intros [= <- <-]; cbn; auto.
  - rewrite generateQRCodeWithoutLogo_run. cbv zeta.
    destruct (QRCode_toCanvas _ _ _); intros [= <- <-]; cbn; auto using app_nil_r.
Qed.

Lemma output_path_parent (w : world) : path_parent (output_path w) = output_dir w.
Proof. unfold output_path. apply path_parent_join. Qed.

Lemma output_path_not_dir (w : world) : output_path w <> output_dir w.
Proof.
  unfold output_path, path_join. intros Heq.
  apply (f_equal length) in Heq. rewrite length_app in Heq. cbn in Heq. lia.
Qed.

(** Persistence leaves the rest of the machine alone. *)
Lemma save_and_send_env (buf : bytes) (w w' : world) (r : exn + unit) :
  save_and_send buf w = (w', r) ->
  fs_denied w' = fs_denied w /\ cwd w' = cwd w /\ dirname w' = dirname w /\
  clock w' = clock w /\
  (forall p, p <> output_path w -> fs_files w' !! p = fs_files w !! p) /\
  fs_dirs w ⊆ fs_dirs w' /\ fs_dirs w' ⊆ {[output_dir w]} ∪ fs_dirs w.
Proof.
  unfold save_and_send, get_dirname, fs_existsSync, fs_mkdirSync, fs_writeFileSync,
    Date_now, console_log, res_setHeader, res_send, res_end, bind, emit, ret.
  fold (output_dir w).
  destruct (fs_exists (output_dir w) w) eqn:Hex; cbn [negb].
  - destruct (write_allowed _ _); cbn; intros [= <- <-]; cbn;
      repeat split; auto; try set_solver.
    intros p Hp. fold (output_path w). now rewrite lookup_insert_ne.
  - destruct (mkdir_allowed _ _) eqn:Hmk; cbn.
    + destruct (write_allowed _ _); cbn; intros [= <- <-]; cbn;
        repeat split; auto; try set_solver.
      intros p Hp. fold (output_path w). now rewrite lookup_insert_ne.
    + intros [= <- <-]. cbn. repeat split; auto; set_solver.
Qed.

(** Persistence, when it succeeds: the console line, and what allowed it. *)
Lemma save_and_send_ok_env (buf : bytes) (w w' : world) :
  save_and_send buf w = (w', inr tt) ->
  console w' =
    console w ++ [ConsoleLog ("QR code saved to: " +:+ path_to_string (output_path w))] /\
  (fs_exists (output_dir w) w = true -> fs_dirs w' = fs_dirs w).
Proof.
  unfold save_and_send, get_dirname, fs_existsSync, fs_mkdirSync, fs_writeFileSync,
    Date_now, console_log, res_setHeader, res_send, res_end, bind, emit, ret.
  fold (output_dir w).
  destruct (fs_exists (output_dir w) w) eqn:Hex; cbn [negb].
  - destruct (write_allowed _ _); cbn; [| intros [=]].
    intros [= <-]. cbn. split; reflexivity.
  - destruct (mkdir_allowed _ _) eqn:Hmk; cbn; [| intros [=]].
    destruct (write_allowed _ _); cbn; [| intros [=]].
    intros [= <-]. cbn. split; [reflexivity | discriminate].
Qed.

(** Persistence, when it fails: which call was refused, and what is left. *)
Lemma save_and_send_fail_cause (buf : bytes) (w w' : world) (e : exn) :
  save_and_send buf w = (w', inl e) ->
  (e = IOError (output_dir w) /\ fs_exists (output_dir w) w = false /\
   mkdir_allowed (output_dir w) w = false /\
   fs_dirs w' = fs_dirs w /\ trace w' = trace w ++ [EvMkdir (output_dir w)]) \/
  (e = IOError (output_path w) /\ fs_exists (output_dir w) w = true /\
   write_allowed (output_path w) w = false /\
   fs_dirs w' = fs_dirs w /\
   trace w' = trace w ++ [EvWriteFile (output_path w) buf]) \/
  (e = IOError (output_path w) /\ fs_exists (output_dir w) w = false /\
   mkdir_allowed (output_dir w) w = true /\
   fs_dirs w' = {[output_dir w]} ∪ fs_dirs w /\
   trace w' = trace w ++ [EvMkdir (output_dir w); EvWriteFile (output_path w) buf]).
Proof.
  unfold save_and_send, get_dirname, fs_existsSync, fs_mkdirSync, fs_writeFileSync,
    Date_now, console_log, res_setHeader, res_send, res_end, bind, emit, ret.
  fold (output_dir w).
  destruct (fs_exists (output_dir w) w) eqn:Hex; cbn [negb].
  - cbn [clock set_trace]. fold (output_path w).
    destruct (write_allowed _ _) eqn:Hwa; cbn; intros [= <- <-].
    right; left. cbn. auto.
  - destruct (mkdir_allowed _ _) eqn:Hmk; cbn.
    + fold (output_path w).
      destruct (write_allowed _ _) eqn:Hwa; cbn; intros [= <- <-].
      right; right. cbn. repeat split; auto. now rewrite <- app_assoc.
    + intros [= <- <-]. left. cbn. auto.
Qed.

(** Persistence succeeds on a healthy machine: [__dirname] is a directory,
    [output] is not a regular file, no directory sits where the image goes
    and neither path is refused. *)
Lemma save_and_send_succeeds (buf : bytes) (w : world) :
  dirname w ∈ fs_dirs w ->
  fs_files w !! output_dir w = None ->
  output_dir w ∉ fs_denied w ->
  output_path w ∉ fs_dirs w ->
  output_path w ∉ fs_denied w ->
  exists w', save_and_send buf w = (w', inr tt).
Proof.
  intros Hdn Hnofile Hod Hopd Hop.
  assert (forall w1, fs_denied w1 = fs_denied w ->
            output_dir w ∈ fs_dirs w1 -> output_path w ∉ fs_dirs w1 ->
            write_allowed (output_path w) w1 = true) as Hwa.
  { intros w1 H1 H2 H3. unfold write_allowed.
    rewrite output_path_parent, H1.
    rewrite (bool_decide_eq_true_2 _ H2).
    rewrite (bool_decide_eq_false_2 _ H3).
    rewrite (bool_decide_eq_false_2 _ Hop). reflexivity. }
  unfold save_and_send, get_dirname, fs_existsSync, fs_mkdirSync, fs_writeFileSync,
    Date_now, bind, emit, ret.
  fold (output_dir w).
  destruct (fs_exists (output_dir w) w) eqn:Hex; cbn [negb].
  - cbn [clock set_trace]. fold (output_path w).
    rewrite Hwa; [eauto | reflexivity | | exact Hopd].
    unfold fs_exists in Hex. rewrite Hnofile in Hex.
    rewrite orb_false_r in Hex. now apply bool_decide_eq_true in Hex.
  - assert (mkdir_allowed (output_dir w) w = true) as Hmk.
    { assert (path_parent (output_dir w) ∈ fs_dirs w) as Hpar
        by (unfold output_dir; rewrite (path_parent_join (dirname w) "output");
            exact Hdn).
      unfold mkdir_allowed. rewrite Hex.
      rewrite (bool_decide_eq_true_2 _ Hpar).
      rewrite (bool_decide_eq_false_2 _ Hod). reflexivity. }
    change (mkdir_allowed (output_dir w)
              (set_trace (trace w ++ [EvMkdir (output_dir w)]) w))
      with (mkdir_allowed (output_dir w) w).
    rewrite Hmk.
    cbn [clock set_trace set_fs]. fold (output_path w).
    rewrite Hwa; [eauto | reflexivity | cbn; set_solver |].
    cbn. pose proof (output_path_not_dir w) as Hne. set_solver.
Qed.

(** The paths of the persistence stage depend on [__dirname] and the clock
    only. *)
Lemma output_paths_same (w w1 : world) :
  dirname w1 = dirname w -> clock w1 = clock w ->
  output_dir w1 = output_dir w /\ output_path w1 = output_path w.
Proof. intros Hd Hc. unfold output_path, output_dir. now rewrite Hd, Hc. Qed.

(** X5. Every request is answered in one of three shapes: 400 with the
    missing-field body when [data] is falsy; otherwise 500 with the failure
    body, or 200 with the image, which is then also the content of the
    output file.  [res_headers] lists the headers the handler sets with
    [res.setHeader], not those Express adds on its own (the JSON content
    type of [res.json]): the two image headers are set on the 200 answer
    and on no other. *)
Theorem response_shapes (req_body : gmap string jsval) (w : world) :
  let w' := handle_request req_body w in
  (truthy (field req_body "data") = false /\
   res_status (res w') = 400%Z /\
   res_sent (res w') =
     Some (BodyJson (JObj [("error", JStr "Missing required field: data")])) /\
   (forall h, h ∈ image_headers -> h ∉ res_headers (res w'))) \/
  (truthy (field req_body "data") = true /\
   res_status (res w') = 500%Z /\
   res_sent (res w') =
     Some (BodyJson (JObj [("error", JStr "Failed to generate QR code")])) /\
   (forall h, h ∈ image_headers -> h ∉ res_headers (res w'))) \/
  (truthy (field req_body "data") = true /\
   exists buf,
     res_status (res w') = 200%Z /\
     res_sent (res w') = Some (BodyBuffer buf) /\
     (forall h, h ∈ image_headers -> h ∈ res_headers (res w')) /\
     fs_files w' !! output_path w = Some buf).
Proof.
  cbv zeta.
  destruct (truthy (field req_body "data")) eqn:Ht.
  2:{ left. rewrite (handle_request_falsy req_body w Ht). cbn.
      repeat split; auto. intros h _. apply not_elem_of_nil. }
  right. rewrite (handle_request_truthy req_body w Ht).
  destruct (generate _ _ _) as [w1 [e | url]] eqn:Hg;
    apply generate_frame in Hg as (Hsame & _);
    destruct Hsame as (_ & _ & _ & _ & Hdir & Hclk & Hres);
    cbn in Hdir, Hclk, Hres.
  - left. split; [reflexivity |]. cbn. rewrite Hres. cbn.
    repeat split; auto. intros h _. apply not_elem_of_nil.
  - destruct (save_and_send _ _) as [w2 [e | []]] eqn:Hs.
    + left. split; [reflexivity |].
      apply save_and_send_fail in Hs as (Hr & _). cbn. rewrite Hr, Hres. cbn.
      repeat split; auto. intros h _. apply not_elem_of_nil.
    + right. split; [reflexivity |].
      apply save_and_send_ok in Hs as (Hfiles & _ & _ & Hr & _).
      destruct (output_paths_same w w1 Hdir Hclk) as [_ Hop].
      exists (decode_data_url url). rewrite Hr, Hres, Hfiles, Hop. cbn.
      split; [reflexivity |]. split; [reflexivity |].
      split; [intros h Hh; exact Hh | apply lookup_insert_eq].
Qed.

(** The handler never touches the rest of the machine. *)
Lemma handle_request_env (req_body : gmap string jsval) (w : world) :
  let w' := handle_request req_body w in
  fs_denied w' = fs_denied w /\ cwd w' = cwd w /\ dirname w' = dirname w /\
  clock w' = clock w /\
  (forall p, p <> output_path w -> fs_files w' !! p = fs_files w !! p) /\
  fs_dirs w ⊆ fs_dirs w' /\ fs_dirs w' ⊆ {[output_dir w]} ∪ fs_dirs w.
Proof.
  cbv zeta.
  destruct (truthy (field req_body "data")) eqn:Ht.
  2:{ rewrite (handle_request_falsy req_body w Ht). cbn.
      repeat split; auto; set_solver. }
  rewrite (handle_request_truthy req_body w Ht).
  destruct (generate _ _ _) as [w1 [e | url]] eqn:Hg;
    apply generate_frame in Hg as (Hsame & _);
    destruct Hsame as (Hf & Hd & Hdn & Hcwd & Hdir & Hclk & _);
    cbn in Hf, Hd, Hdn, Hcwd, Hdir, Hclk.
  - cbn. rewrite Hf, Hd, Hdn, Hcwd, Hdir, Hclk. repeat split; auto; set_solver.
  - destruct (output_paths_same w w1 Hdir Hclk) as [Hod Hop].
    destruct (save_and_send _ _) as [w2 r] eqn:Hs.
    apply save_and_send_env in Hs as (E1 & E2 & E3 & E4 & E5 & E6 & E7).
    rewrite Hod, Hd in E7. rewrite Hd in E6. rewrite Hop in E5.
    assert (fs_denied w2 = fs_denied w /\ cwd w2 = cwd w /\
            dirname w2 = dirname w /\ clock w2 = clock w /\
            (forall p, p <> output_path w -> fs_files w2 !! p = fs_files w !! p) /\
            fs_dirs w ⊆ fs_dirs w2 /\ fs_dirs w2 ⊆ {[output_dir w]} ∪ fs_dirs w)
      as Hall.
    { repeat split; try congruence; auto.
      intros p Hp. rewrite (E5 p Hp). now rewrite Hf. }
    destruct r as [e | []]; [cbn | ]; exact Hall.
Qed.

(** X6. The handler changes nothing on the machine but the output file
    and, at most, the output directory: every other file keeps its content
    (the logo included), no directory disappears, the only directory that
    can appear is [output], the trace and the console only grow. *)
Theorem only_the_output_is_touched (req_body : gmap string jsval) (w : world) :
  let w' := handle_request req_body w in
  (forall p, p <> output_path w -> fs_files w' !! p = fs_files w !! p) /\
  fs_dirs w ⊆ fs_dirs w' /\ fs_dirs w' ⊆ {[output_dir w]} ∪ fs_dirs w /\
  fs_denied w' = fs_denied w /\ cwd w' = cwd w /\ dirname w' = dirname w /\
  (exists t, trace w' = trace w ++ t) /\
  (exists c, console w' = console w ++ c).
Proof.
  cbv zeta.
  destruct (handle_request_env req_body w) as (E1 & E2 & E3 & _ & E5 & E6 & E7).
  destruct (handle_request_trace req_body w) as (t & Ht & _).
  repeat split; auto; [exists t; exact Ht |].
  destruct (truthy (field req_body "data")) eqn:Htr.
  2:{ rewrite (handle_request_falsy req_body w Htr). exists []. cbn.
      now rewrite app_nil_r. }
  rewrite (handle_request_truthy req_body w Htr).
  destruct (generate _ _ _) as [w1 [e | url]] eqn:Hg;
    apply generate_console in Hg; cbn in Hg.
  - destruct Hg as [_ Hg]. cbn. rewrite Hg, <- app_assoc. eauto.
  - destruct (save_and_send _ _) as [w2 [e | []]] eqn:Hs.
    + apply save_and_send_fail in Hs as (_ & _ & Hc & _). cbn.
      rewrite Hc, Hg. eauto.
    + apply save_and_send_ok_env in Hs as [Hc _]. rewrite Hc, Hg. eauto.
Qed.

(** X7. A request without [enableLogo] is served as one with
    [enableLogo: true]. *)
Theorem enableLogo_defaults_to_true (req_body : gmap string jsval) (w : world) :
  req_body !! "enableLogo" = None ->
  handle_request req_body w =
    handle_request (<["enableLogo" := JBool true]> req_body) w.
Proof.
  intros Hnone.
  assert (field (<["enableLogo" := JBool true]> req_body) "data" =
          field req_body "data") as Hd
    by (unfold field; now rewrite lookup_insert_ne).
  assert (field_default req_body "enableLogo" (JBool true) = JBool true) as He
    by (unfold field_default, field; now rewrite Hnone).
  assert (field_default (<["enableLogo" := JBool true]> req_body) "enableLogo"
            (JBool true) = JBool true) as He'
    by (unfold field_default, field; now rewrite lookup_insert_eq).
  unfold handle_request, generate_qr, generate_qr_try. cbv zeta.
  now rewrite Hd, He, He'.
Qed.

(** The calls of a request with a usable [data]: rendering, the logo
    stage, then calls that neither render nor touch the logo. *)
Lemma handle_request_calls (req_body : gmap string jsval) (w : world) :
  truthy (field req_body "data") = true ->
  let data := field req_body "data" in
  let enableLogo := field_default req_body "enableLogo" (JBool true) in
  exists rest,
    trace (handle_request req_body w) =
      trace w ++ [EvCreateCanvas 400 400; EvToCanvas data fixed_options] ++
      logo_calls data enableLogo w ++ rest /\
    calls is_render rest = 0%nat /\ calls is_load rest = 0%nat /\
    calls is_draw rest = 0%nat.
Proof.
  intros Ht. cbv zeta. rewrite (handle_request_truthy req_body w Ht).
  assert (forall w1 r,
    generate (field req_body "data")
      (field_default req_body "enableLogo" (JBool true))
      (set_res fresh_response w) = (w1, r) ->
    trace w1 =
      trace w ++ [EvCreateCanvas 400 400;
                  EvToCanvas (field req_body "data") fixed_options] ++
      logo_calls (field req_body "data")
        (field_default req_body "enableLogo" (JBool true)) w) as Hgen.
  { intros w1 r. unfold generate, logo_calls.
    destruct (truthy (field_default req_body "enableLogo" (JBool true))).
    - rewrite generateQRCodeWithLogo_run. cbv zeta.
      change (read_image logo_path (set_res fresh_response w))
        with (read_image logo_path w).
      destruct (QRCode_toCanvas _ _ _); [destruct (read_image logo_path w) |];
        intros [= <- <-]; reflexivity.
    - rewrite generateQRCodeWithoutLogo_run. cbv zeta.
      destruct (QRCode_toCanvas _ _ _); intros [= <- <-]; reflexivity. }
  destruct (generate _ _ _) as [w1 [e | url]] eqn:Hg;
    specialize (Hgen _ _ eq_refl).
  - exists [EvSend 500 failed_body]. cbn [failed set_trace trace].
    rewrite Hgen. repeat rewrite <- app_assoc. auto.
  - destruct (save_and_send _ _) as [w2 [e | []]] eqn:Hs.
    + apply save_and_send_fail in Hs as (_ & _ & _ & ts & Hts & Hsh).
      exists (ts ++ [EvSend 500 failed_body]). cbn [failed set_trace trace].
      rewrite Hts, Hgen. repeat rewrite <- app_assoc.
      split; [reflexivity |].
      destruct Hsh as [-> | [-> | ->]]; auto.
    + apply save_and_send_ok in Hs as (_ & _ & _ & _ & tm & Htm & Htr).
      eexists. rewrite Htr, Hgen. repeat rewrite <- app_assoc.
      split; [reflexivity |].
      destruct Htm as [[_ ->] | [_ ->]]; auto.
Qed.

(** X8. With a usable [data] the logo file is read just when the encoder
    succeeded and [enableLogo] is truthy (or absent), and the logo is drawn
    just when, moreover, the file decodes.  The test is truthiness: JSON
    [null] and [0] switch the logo off, the string ["false"] does not. *)
Theorem logo_stage_runs_when_truthy (req_body : gmap string jsval) (w : world) :
  truthy (field req_body "data") = true ->
  let data := field req_body "data" in
  let enableLogo := field_default req_body "enableLogo" (JBool true) in
  let encoded := QRCode_toCanvas (createCanvas 400 400) data
                   (QrOptions EcH 1 "#000000" "#ffffff") in
  (exists t,
     trace (handle_request req_body w) = trace w ++ t /\
     calls is_load t =
       (if truthy enableLogo
        then match encoded with Some _ => 1 | None => 0 end
        else 0)%nat /\
     calls is_draw t =
       (if truthy enableLogo
        then match encoded, read_image ["src"; "images"; "logo1.jpg"] w with
             | Some _, Some _ => 1
             | _, _ => 0
             end
        else 0)%nat) /\
  truthy JNull = false /\ truthy (JNum 0) = false /\
  truthy (JStr "false") = true.
Proof.
  intros Ht. cbv zeta. split; [| auto].
  destruct (handle_request_calls req_body w Ht) as (rest & Htr & _ & Hl & Hd).
  cbv zeta in Htr. eexists. split; [exact Htr |].
  unfold calls in *. repeat rewrite List.filter_app. repeat rewrite length_app.
  rewrite Hl, Hd. unfold logo_calls. fold fixed_options logo_path.
  destruct (truthy (field_default req_body "enableLogo" (JBool true)));
    destruct (QRCode_toCanvas _ _ _);
    try destruct (read_image logo_path w); cbn; auto.
Qed.

(** X9. Validation is a truthiness test and nothing more: whatever truthy
    value [data] holds, an array or an object (even empty), a number,
    [true], it is handed to the encoder as it is, on a canvas of side 400,
    and the encoder is not called a second time. *)
Theorem truthy_data_reaches_the_encoder (req_body : gmap string jsval) (w : world) :
  truthy (field req_body "data") = true ->
  (exists t,
     trace (handle_request req_body w) =
       trace w ++ [EvCreateCanvas 400 400;
                   EvToCanvas (field req_body "data")
                     (QrOptions EcH 1 "#000000" "#ffffff")] ++ t /\
     calls is_render t = 0%nat) /\
  res_status (res (handle_request req_body w)) <> 400%Z /\
  (forall items, truthy (JArr items) = true) /\
  (forall fields, truthy (JObj fields) = true).
Proof.
  intros Ht.
  destruct (handle_request_calls req_body w Ht) as (rest & Htr & Hr & _).
  cbv zeta in Htr. split; [| split; [| auto]].
  - eexists. split; [exact Htr |].
    unfold calls in *. rewrite List.filter_app, length_app, Hr.
    unfold logo_calls.
    destruct (QRCode_toCanvas _ _ _); [| reflexivity].
    destruct (truthy (field_default _ _ _)); [| reflexivity].
    destruct (read_image _ _); reflexivity.
  - rewrite (handle_request_truthy req_body w Ht).
    destruct (generate _ _ _) as [w1 [e | url]] eqn:Hg;
      apply generate_frame in Hg as (Hsame & _);
      destruct Hsame as (_ & _ & _ & _ & _ & _ & Hres); cbn in Hres.
    + cbn. discriminate.
    + destruct (save_and_send _ _) as [w2 [e | []]] eqn:Hs.
      * cbn. discriminate.
      * apply save_and_send_ok in Hs as (_ & _ & _ & Hr2 & _).
        rewrite Hr2, Hres. cbn. discriminate.
Qed.

(** X10. What a request writes on the console: nothing when it is
    rejected, the line with the saved path when it is answered 200, and on
    a failure the error, logged by the handler and, when it was raised
    inside the function that draws the logo, logged there first: such a
    failure is logged twice. *)
Theorem console_lines (req_body : gmap string jsval) (w : world) :
  let w' := handle_request req_body w in
  let enableLogo := field_default req_body "enableLogo" (JBool true) in
  (res_status (res w') = 400%Z /\ console w' = console w) \/
  (res_status (res w') = 200%Z /\
   console w' =
     console w ++
     [ConsoleLog ("QR code saved to: " +:+ path_to_string (output_path w))]) \/
  (res_status (res w') = 500%Z /\
   exists e,
     console w' =
       console w ++
       (if truthy enableLogo && negb (is_io e)
        then [ConsoleError "Error generating QR code:" e] else []) ++
       [ConsoleError "Error in /generate-qr:" e]).
Proof.
  cbv zeta.
  destruct (truthy (field req_body "data")) eqn:Ht.
  2:{ left. rewrite (handle_request_falsy req_body w Ht). auto. }
  right. rewrite (handle_request_truthy req_body w Ht).
  destruct (generate _ _ _) as [w1 [e | url]] eqn:Hg; pose proof Hg as Hc;
    apply generate_console in Hc; cbn in Hc;
    apply generate_frame in Hg as (Hsame & _);
    destruct Hsame as (_ & _ & _ & _ & Hdir & Hclk & Hres);
    cbn in Hdir, Hclk, Hres.
  - right. split; [reflexivity |]. exists e. cbn.
    destruct Hc as [He ->]. rewrite <- app_assoc.
    destruct He as [-> | ->]; cbn; rewrite andb_true_r; reflexivity.
  - destruct (output_paths_same w w1 Hdir Hclk) as [Hod Hop].
    destruct (save_and_send _ _) as [w2 [e | []]] eqn:Hs.
    + right. split; [reflexivity |]. exists e. cbn.
      pose proof Hs as Hcause. apply save_and_send_fail_cause in Hcause.
      apply save_and_send_fail in Hs as (_ & _ & Hcon & _).
      rewrite Hcon, Hc.
      assert (is_io e = true) as ->
        by (destruct Hcause as [(-> & _) | [(-> & _) | (-> & _)]]; reflexivity).
      now rewrite andb_false_r.
    + left. pose proof Hs as Hs'.
      apply save_and_send_ok in Hs as (_ & _ & _ & Hr & _).
      apply save_and_send_ok_env in Hs' as [Hcon _].
      rewrite Hr, Hres, Hcon, Hc, Hop. auto.
Qed.

(** X11. On a healthy machine a request that can be generated is answered
    200: when [data] is truthy, the encoder accepts it, the logo (if
    enabled) loads, [__dirname] is a directory, [output] is not a regular
    file, no directory sits where the image goes and neither path is
    refused, the body is the decoded data URL of the canvas and the same
    bytes are in the output file. *)
Theorem healthy_request_succeeds
    (req_body : gmap string jsval) (w : world) (url : string) :
  truthy (field req_body "data") = true ->
  generated_url (field req_body "data")
    (field_default req_body "enableLogo" (JBool true)) w = Some url ->
  dirname w ∈ fs_dirs w ->
  fs_files w !! output_dir w = None ->
  output_dir w ∉ fs_denied w ->
  output_path w ∉ fs_dirs w ->
  output_path w ∉ fs_denied w ->
  let w' := handle_request req_body w in
  let buf := Buffer_from_base64 (replace_prefix "data:image/png;base64," url) in
  res w' = Response 200
             [("Content-Type", "image/png");
              ("Content-Disposition", "inline; filename=qr-code.png")]
             (Some (BodyBuffer buf)) /\
  fs_files w' !! output_path w = Some buf /\
  output_dir w ∈ fs_dirs w'.
Proof.
  intros Ht Hurl Hdn Hnofile Hod Hopd Hop. cbv zeta.
  rewrite (handle_request_truthy req_body w Ht).
  pose proof (generate_result (field req_body "data")
                (field_default req_body "enableLogo" (JBool true))
                (set_res fresh_response w)) as Hres.
  change (generated_url ?d ?e (set_res fresh_response w))
    with (generated_url d e w) in Hres.
  rewrite Hurl in Hres.
  destruct (generate _ _ _) as [w1 r] eqn:Hg. cbn in Hres. subst r.
  apply generate_frame in Hg as (Hsame & _).
  destruct Hsame as (Hf & Hd & Hden & _ & Hdir & Hclk & Hr1).
  cbn in Hf, Hd, Hden, Hdir, Hclk, Hr1.
  destruct (output_paths_same w w1 Hdir Hclk) as [Hod1 Hop1].
  destruct (save_and_send_succeeds (decode_data_url url) w1) as [w2 Hs].
  { now rewrite Hdir, Hd. }
  { now rewrite Hod1, Hf. }
  { now rewrite Hod1, Hden. }
  { now rewrite Hop1, Hd. }
  { now rewrite Hop1, Hden. }
  rewrite Hs.
  apply save_and_send_ok in Hs as (Hfiles & Hin & _ & Hr & _).
  rewrite Hr, Hr1, Hfiles, Hop1. rewrite Hod1 in Hin.
  split; [reflexivity |]. split; [apply lookup_insert_eq | exact Hin].
Qed.

(** X12. When [output] next to [server.js] is a regular file, no image can
    be served: [existsSync] is true, [mkdirSync] is not called, the write
    is refused, and the answer is 500 with the file system as it was. *)
Theorem output_taken_by_a_file (req_body : gmap string jsval) (w : world) :
  truthy (field req_body "data") = true ->
  is_Some (fs_files w !! output_dir w) ->
  output_dir w ∉ fs_dirs w ->
  let w' := handle_request req_body w in
  res w' = Response 500 []
             (Some (BodyJson (JObj [("error", JStr "Failed to generate QR code")]))) /\
  fs_files w' = fs_files w /\ fs_dirs w' = fs_dirs w /\
  exists t, trace w' = trace w ++ t /\ calls is_mkdir t = 0%nat.
Proof.
  intros Ht Hfile Hnodir. cbv zeta.
  destruct (handle_request_calls req_body w Ht) as (rest0 & Htr0 & _).
  rewrite (handle_request_truthy req_body w Ht) in Htr0 |- *.
  destruct (generate _ _ _) as [w1 [e | url]] eqn:Hg; pose proof Hg as Hg';
    apply generate_frame in Hg as (Hsame & tg & Htg & Hshape);
    destruct Hsame as (Hf & Hd & _ & _ & Hdir & Hclk & Hres);
    cbn in Hf, Hd, Hdir, Hclk, Hres, Htg.
  - cbn. rewrite Hres, Hf, Hd. repeat split.
    eexists. rewrite Htg. rewrite <- app_assoc. split; [reflexivity |].
    destruct Hshape as [-> | ->]; reflexivity.
  - destruct (output_paths_same w w1 Hdir Hclk) as [Hod Hop].
    assert (fs_exists (output_dir w1) w1 = true) as Hex.
    { unfold fs_exists. rewrite Hod, Hf.
      rewrite (bool_decide_eq_true_2 _ Hfile). apply orb_true_r. }
    destruct (save_and_send _ _) as [w2 [e | []]] eqn:Hs.
    + pose proof Hs as Hcause. apply save_and_send_fail_cause in Hcause.
      apply save_and_send_fail in Hs as (Hr & Hf2 & _).
      destruct Hcause as [(_ & Hno & _) | [(_ & _ & _ & Hd2 & Htr) | (_ & Hno & _)]];
        try congruence.
      cbn. rewrite Hr, Hres, Hf2, Hf, Hd2, Hd. repeat split.
      eexists. rewrite Htr, Htg. repeat rewrite <- app_assoc.
      split; [reflexivity |].
      destruct Hshape as [[_ ->] | (_ & img & _ & ->)]; reflexivity.
    + exfalso. pose proof Hs as Hs'.
      apply save_and_send_ok in Hs as (_ & Hin & _).
      apply save_and_send_ok_env in Hs' as [_ Hsame].
      rewrite (Hsame Hex), Hod, Hd in Hin. contradiction.
Qed.

(** X13. Nothing is rolled back: when the output directory is absent,
    [mkdirSync] succeeds and the write of the image is then refused, the
    answer is 500 and the freshly made directory stays, empty of the
    image. *)
Theorem failed_write_leaves_the_directory
    (req_body : gmap string jsval) (w : world) (url : string) :
  truthy (field req_body "data") = true ->
  generated_url (field req_body "data")
    (field_default req_body "enableLogo" (JBool true)) w = Some url ->
  fs_exists (output_dir w) w = false ->
  mkdir_allowed (output_dir w) w = true ->
  output_path w ∈ fs_denied w ->
  let w' := handle_request req_body w in
  res_status (res w') = 500%Z /\
  fs_dirs w' = {[output_dir w]} ∪ fs_dirs w /\
  fs_files w' = fs_files w /\
  exists t,
    trace w' = trace w ++ t ++
               [EvMkdir (output_dir w);
                EvWriteFile (output_path w)
                  (Buffer_from_base64 (replace_prefix "data:image/png;base64," url));
                EvSend 500 (BodyJson (JObj [("error", JStr "Failed to generate QR code")]))].
Proof.
  intros Ht Hurl Hex Hmk Hden. cbv zeta.
  rewrite (handle_request_truthy req_body w Ht).
  pose proof (generate_result (field req_body "data")
                (field_default req_body "enableLogo" (JBool true))
                (set_res fresh_response w)) as Hres.
  change (generated_url ?d ?e (set_res fresh_response w))
    with (generated_url d e w) in Hres.
  rewrite Hurl in Hres.
  destruct (generate _ _ _) as [w1 r] eqn:Hg. cbn in Hres. subst r.
  apply generate_frame in Hg as (Hsame & tg & Htg & _).
  destruct Hsame as (Hf & Hd & Hdn & _ & Hdir & Hclk & Hr1).
  cbn in Hf, Hd, Hdn, Hdir, Hclk, Hr1, Htg.
  destruct (output_paths_same w w1 Hdir Hclk) as [Hod Hop].
  assert (output_path w1 ∈ fs_denied w1) as Hden1 by now rewrite Hop, Hdn.
  destruct (save_and_send_denied (decode_data_url url) w1 Hden1) as (w2 & e & Hs).
  rewrite Hs. pose proof Hs as Hcause. apply save_and_send_fail_cause in Hcause.
  apply save_and_send_fail in Hs as (_ & Hf2 & _).
  assert (fs_exists (output_dir w1) w1 = false) as Hex1
    by (unfold fs_exists in *; now rewrite Hod, Hf, Hd).
  assert (mkdir_allowed (output_dir w1) w1 = true) as Hmk1.
  { unfold mkdir_allowed in *. rewrite Hex1.
    rewrite Hex in Hmk. now rewrite Hod, Hd, Hdn. }
  destruct Hcause as [(_ & _ & Hno & _) | [(_ & Hyes & _) | (_ & _ & _ & Hd2 & Htr)]];
    try congruence.
  cbn. split; [reflexivity |].
  split; [now rewrite Hd2, Hod, Hd |].
  split; [now rewrite Hf2, Hf |].
  exists ([EvCreateCanvas 400 400;
           EvToCanvas (field req_body "data") fixed_options] ++ tg).
  rewrite Htr, Htg, Hod, Hop. repeat rewrite <- app_assoc. reflexivity.
Qed.

(** The image that is sent is in the output file. *)
Lemma sent_image_is_saved (req_body : gmap string jsval) (w : world) (buf : bytes) :
  res_sent (res (handle_request req_body w)) = Some (BodyBuffer buf) ->
  fs_files (handle_request req_body w) !! output_path w = Some buf.
Proof.
  destruct (truthy (field req_body "data")) eqn:Ht.
  2:{ rewrite (handle_request_falsy req_body w Ht). discriminate. }
  rewrite (handle_request_truthy req_body w Ht).
  destruct (generate _ _ _) as [w1 [e | url]] eqn:Hg; [discriminate |].
  apply generate_frame in Hg as (Hsame & _).
  destruct Hsame as (_ & _ & _ & _ & Hdir & Hclk & _). cbn in Hdir, Hclk.
  destruct (output_paths_same w w1 Hdir Hclk) as [_ Hop].
  destruct (save_and_send _ _) as [w2 [e | []]] eqn:Hs; [discriminate |].
  apply save_and_send_ok in Hs as (Hfiles & _ & _ & Hr & _).
  rewrite Hr, Hfiles, Hop. cbn. intros [= ->]. apply lookup_insert_eq.
Qed.

Lemma list_ascii_of_string_app (s t : string) :
  String.list_ascii_of_string (s +:+ t) = String.list_ascii_of_string s ++ String.list_ascii_of_string t.
Proof. induction s as [| a s IH]; [reflexivity | simpl; f_equal; exact IH]. Qed.

Lemma string_app_inv_tail (s1 s2 t : string) : s1 +:+ t = s2 +:+ t -> s1 = s2.
Proof.
  intros Heq. apply (f_equal String.list_ascii_of_string) in Heq.
  rewrite !list_ascii_of_string_app in Heq. apply app_inv_tail in Heq.
  rewrite <- (String.string_of_list_ascii_of_string s1).
  rewrite <- (String.string_of_list_ascii_of_string s2). now rewrite Heq.
Qed.

(** The name of the output file determines the timestamp. *)
Lemma output_path_inj (a b : world) :
  output_path a = output_path b -> clock a = clock b.
Proof.
  unfold output_path, path_join. intros Heq.
  apply app_inj_tail in Heq as [_ Hname].
  apply String.app_inj in Hname. apply string_app_inv_tail in Hname.
  now apply pretty_Z_inj in Hname.
Qed.

(** X14. Two requests answered with an image, the second when the clock
    shows [t2]: the second image is in the file named after [t2]; when
    [t2] differs from the time of the first request the first file is left
    as it was, and when the two times are the same millisecond the second
    image has replaced the first in the one file. *)
Theorem images_accumulate_by_timestamp
    (req1 req2 : gmap string jsval) (w : world) (t2 : Z) (buf1 buf2 : bytes) :
  let w1 := handle_request req1 w in
  let w2 := handle_request req2 (set_clock t2 w1) in
  res_sent (res w1) = Some (BodyBuffer buf1) ->
  res_sent (res w2) = Some (BodyBuffer buf2) ->
  fs_files w2 !! output_path (set_clock t2 w) = Some buf2 /\
  (t2 <> clock w -> fs_files w2 !! output_path w = Some buf1) /\
  (t2 = clock w -> fs_files w2 !! output_path w = Some buf2).
Proof.
  cbv zeta. intros H1 H2.
  apply sent_image_is_saved in H1. apply sent_image_is_saved in H2.
  destruct (handle_request_env req1 w) as (_ & _ & Hdir & _).
  destruct (handle_request_env req2 (set_clock t2 (handle_request req1 w)))
    as (_ & _ & _ & _ & Hframe & _).
  assert (output_path (set_clock t2 (handle_request req1 w)) =
          output_path (set_clock t2 w)) as Hsame
    by (apply output_paths_same; [exact Hdir | reflexivity]).
  rewrite Hsame in H2, Hframe.
  split; [exact H2 |]. split.
  - intros Hne. rewrite Hframe; [exact H1 |].
    intros Heq. apply output_path_inj in Heq. cbn in Heq. congruence.
  - intros ->.
    replace (output_path w) with (output_path (set_clock (clock w) w)); [exact H2 |].
    apply output_paths_same; reflexivity.
Qed.

End WithLib.

Lemma strip_prefix_spec (prefix s r : string) :
  strip_prefix prefix s = Some r <-> s = prefix +:+ r.
Proof.
  revert s. induction prefix as [| a prefix IH]; intros s; cbn.
  - split; [intros [= ->]; reflexivity | intros ->; reflexivity].
  - destruct s as [| b s]; [split; discriminate |].
    destruct (Ascii.eqb a b) eqn:Hab.
    + apply Ascii.eqb_eq in Hab as ->. rewrite IH.
      split; [intros ->; reflexivity | intros [= ->]; reflexivity].
    + split; [discriminate |]. intros [= -> _].
      rewrite Ascii.eqb_refl in Hab. discriminate.
Qed.

(** X15. The replacement of [/^data:image\/png;base64,/] removes the
    header of a data URL and nothing else: a string that starts with the
    prefix loses it once, even when the prefix is repeated; a string
    that does not start with it is passed on as it is. *)
Theorem data_url_header_is_stripped (prefix s payload : string) :
  (strip_prefix prefix s = Some payload <-> s = prefix +:+ payload) /\
  replace_prefix prefix (prefix +:+ payload) = payload /\
  replace_prefix prefix (prefix +:+ prefix +:+ payload) = prefix +:+ payload /\
  (strip_prefix prefix s = None -> replace_prefix prefix s = s) /\
  ((forall r, s <> prefix +:+ r) -> replace_prefix prefix s = s).
Proof.
  split; [apply strip_prefix_spec |].
  assert (forall r, replace_prefix prefix (prefix +:+ r) = r) as Hstrip.
  { intros r. unfold replace_prefix.
    now rewrite (proj2 (strip_prefix_spec prefix (prefix +:+ r) r) eq_refl). }
  split; [apply Hstrip |]. split; [apply Hstrip |].
  split.
  - intros Hnone. unfold replace_prefix. now rewrite Hnone.
  - intros Hno. unfold replace_prefix.
    destruct (strip_prefix prefix s) as [r |] eqn:Hr; [| reflexivity].
    apply strip_prefix_spec in Hr. destruct (Hno r Hr).
Qed.

(** *** The statements above, run on the concrete library and worlds *)

Lemma enableLogo_defaults_to_true_witness :
  @handle_request Demo.demo_lib {[ "data" := JStr "hello" ]} Demo.demo_world =
    @handle_request Demo.demo_lib
      (<["enableLogo" := JBool true]> {[ "data" := JStr "hello" ]}) Demo.demo_world.
Proof.
  apply (@enableLogo_defaults_to_true Demo.demo_lib {[ "data" := JStr "hello" ]}
           Demo.demo_world).
  reflexivity.
Defined.

Lemma logo_stage_runs_when_truthy_witness :
  truthy (field (Demo.hello_body false) "data") = true /\
  exists t,
    trace (@handle_request Demo.demo_lib (Demo.hello_body false) Demo.demo_world) =
      trace Demo.demo_world ++ t /\
    calls is_load t = 0%nat /\ calls is_draw t = 0%nat.
Proof.
  split; [reflexivity |].
  destruct (@logo_stage_runs_when_truthy Demo.demo_lib (Demo.hello_body false)
              Demo.demo_world eq_refl) as [(t & Ht & Hl & Hd) _].
  exists t. split; [exact Ht |]. split; [exact Hl | exact Hd].
Defined.

Lemma truthy_data_reaches_the_encoder_witness :
  let req_body : gmap string jsval := {[ "data" := JArr [] ]} in
  truthy (field req_body "data") = true /\
  exists t,
    trace (@handle_request Demo.demo_lib req_body Demo.demo_world) =
      trace Demo.demo_world ++
      [EvCreateCanvas 400 400;
       EvToCanvas (JArr []) (QrOptions EcH 1 "#000000" "#ffffff")] ++ t /\
    calls is_render t = 0%nat.
Proof.
  split; [reflexivity |].
  exact (proj1 (@truthy_data_reaches_the_encoder Demo.demo_lib
                  {[ "data" := JArr [] ]} Demo.demo_world eq_refl)).
Defined.

Lemma healthy_request_succeeds_witness :
  let w' := @handle_request Demo.demo_lib (Demo.hello_body true) Demo.demo_world in
  let buf := String.list_byte_of_string "cXIrbG9nbw==" in
  res w' = Response 200
             [("Content-Type", "image/png");
              ("Content-Disposition", "inline; filename=qr-code.png")]
             (Some (BodyBuffer buf)) /\
  fs_files w' !! output_path Demo.demo_world = Some buf /\
  output_dir Demo.demo_world ∈ fs_dirs w'.
Proof.
  apply (@healthy_request_succeeds Demo.demo_lib (Demo.hello_body true)
           Demo.demo_world "data:image/png;base64,cXIrbG9nbw==").
  - reflexivity.
  - vm_compute. reflexivity.
  - apply (bool_decide_unpack _). vm_compute. exact I.
  - vm_compute. reflexivity.
  - apply (bool_decide_unpack _). vm_compute. exact I.
  - apply (bool_decide_unpack _). vm_compute. exact I.
  - apply (bool_decide_unpack _). vm_compute. exact I.
Defined.

Lemma output_taken_by_a_file_witness :
  let w' := @handle_request Demo.demo_lib (Demo.hello_body false) blocked_world in
  res w' = Response 500 []
             (Some (BodyJson (JObj [("error", JStr "Failed to generate QR code")]))) /\
  fs_files w' = fs_files blocked_world /\ fs_dirs w' = fs_dirs blocked_world /\
  exists t, trace w' = trace blocked_world ++ t /\ calls is_mkdir t = 0%nat.
Proof.
  apply (@output_taken_by_a_file Demo.demo_lib (Demo.hello_body false) blocked_world).
  - reflexivity.
  - vm_compute. eexists. reflexivity.
  - apply (bool_decide_unpack _). vm_compute. exact I.
Defined.

Lemma failed_write_leaves_the_directory_witness :
  let w' := @handle_request Demo.demo_lib (Demo.hello_body false) refused_world in
  res_status (res w') = 500%Z /\
  fs_dirs w' = {[output_dir refused_world]} ∪ fs_dirs refused_world /\
  fs_files w' = fs_files refused_world /\
  exists t,
    trace w' = trace refused_world ++ t ++
               [EvMkdir (output_dir refused_world);
                EvWriteFile (output_path refused_world)
                  (@Buffer_from_base64 Demo.demo_lib
                     (replace_prefix "data:image/png;base64,"
                        "data:image/png;base64,cXI="));
                EvSend 500 (BodyJson (JObj [("error", JStr "Failed to generate QR code")]))].
Proof.
  apply (@failed_write_leaves_the_directory Demo.demo_lib (Demo.hello_body false)
           refused_world "data:image/png;base64,cXI=").
  - reflexivity.
  - vm_compute. reflexivity.
  - vm_compute. reflexivity.
  - vm_compute. reflexivity.
  - apply (bool_decide_unpack _). vm_compute. exact I.
Defined.

Lemma images_accumulate_by_timestamp_witness :
  let logo := String.list_byte_of_string "cXIrbG9nbw==" in
  let plain := String.list_byte_of_string "cXI=" in
  let w1 := @handle_request Demo.demo_lib (Demo.hello_body true) Demo.demo_world in
  let w2 := @handle_request Demo.demo_lib (Demo.hello_body false)
              (set_clock 1700000360000 w1) in
  fs_files w2 !! output_path (set_clock 1700000360000 Demo.demo_world) = Some plain /\
  (1700000360000%Z <> clock Demo.demo_world ->
   fs_files w2 !! output_path Demo.demo_world = Some logo) /\
  (1700000360000%Z = clock Demo.demo_world ->
   fs_files w2 !! output_path Demo.demo_world = Some plain).
Proof.
  apply (@images_accumulate_by_timestamp Demo.demo_lib (Demo.hello_body true)
           (Demo.hello_body false) Demo.demo_world 1700000360000).
  - vm_compute. reflexivity.
  - vm_compute. reflexivity.
Defined.

End ServerMore.
